(** * The Student Grade Analyzer (lecture_3/student_grade_analyzer.py)

    A shallow embedding of the interactive grade analyzer.

    - Python strings are modelled as Rocq [string]s whose characters are
      read as Unicode code points 0..255 (the Latin-1 block); [str.strip],
      [str.lower] and [int] follow CPython's tables on that block.
    - The program's effects (the shared [students] list, [input()] and
      [print()]) are threaded through a small state/exception monad.
      Each [print] call is recorded as one [msg] carrying the values it
      interpolates; the float formatting [:.1f] is not modelled.
    - Python floats are IEEE 754 binary64 values, the Standard Library's
      [spec_float] with 53 bits of precision and maximal exponent 1024,
      whose operations round to nearest, ties to even. *)

From Stdlib Require Import String Ascii List ZArith QArith Lia Bool.
From Stdlib Require Import SpecFloat.
Import ListNotations.

(* ------------------------------------------------------------------ *)
(** ** Python string built-ins *)

Module PyStr.

(** [str.isspace] on code points 0..255: \t \n \v \f \r, the separators
    0x1c..0x1f, space, NEL (0x85) and NO-BREAK SPACE (0xa0). *)
Definition isspace (c : ascii) : bool :=
  let n := nat_of_ascii c in
  ((9 <=? n) && (n <=? 13)) || ((28 <=? n) && (n <=? 32))
  || (n =? 133) || (n =? 160).

(** [str.lower] on one code point: A..Z and the Latin-1 capitals
    0xc0..0xde (except the multiplication sign 0xd7). *)
Definition lower_char (c : ascii) : ascii :=
  let n := nat_of_ascii c in
  if ((65 <=? n) && (n <=? 90)) || ((192 <=? n) && (n <=? 222) && negb (n =? 215))
  then ascii_of_nat (n + 32) else c.

Fixpoint lower (s : string) : string :=
  match s with
  | EmptyString => EmptyString
  | String c s' => String (lower_char c) (lower s')
  end.

Fixpoint lstrip (s : string) : string :=
  match s with
  | EmptyString => EmptyString
  | String c s' => if isspace c then lstrip s' else s
  end.

Definition is_empty (s : string) : bool :=
  match s with EmptyString => true | _ => false end.

Fixpoint rstrip (s : string) : string :=
  match s with
  | EmptyString => EmptyString
  | String c s' =>
      let r := rstrip s' in
      if isspace c && is_empty r then EmptyString else String c r
  end.

(** [str.strip()] with no argument. *)
Definition strip (s : string) : string := rstrip (lstrip s).

(** Decimal value of a character ('0'..'9' are the only characters of
    category Nd in 0..255). *)
Definition digit_val (c : ascii) : option Z :=
  let n := nat_of_ascii c in
  if (48 <=? n) && (n <=? 57) then Some (Z.of_nat (n - 48)) else None.

(** The digits after the first one: a single '_' may separate digits. *)
Fixpoint digits_tail (s : string) (acc : Z) : option Z :=
  match s with
  | EmptyString => Some acc
  | String c s' =>
      match digit_val c with
      | Some d => digits_tail s' (acc * 10 + d)
      | None =>
          if Ascii.eqb c "_" then
            match s' with
            | String c2 s'' =>
                match digit_val c2 with
                | Some d => digits_tail s'' (acc * 10 + d)
                | None => None
                end
            | EmptyString => None
            end
          else None
      end
  end.

Definition parse_unsigned (s : string) : option Z :=
  match s with
  | String c s' =>
      match digit_val c with
      | Some d => digits_tail s' d
      | None => None
      end
  | EmptyString => None
  end.

(** The number of decimal digits of a string. *)
Fixpoint count_digits (s : string) : nat :=
  match s with
  | EmptyString => 0
  | String c s' => (if digit_val c then 1 else 0) + count_digits s'
  end.

(** [sys.get_int_max_str_digits()] by default. *)
Definition max_str_digits : nat := 4300.

(** [int(s)] (base 10): surrounding whitespace, an optional sign, then
    digits with single underscores between them, at most [max_str_digits]
    digits in all; [None] is [ValueError]. *)
Definition py_int (s : string) : option Z :=
  let t := strip s in
  let parsed :=
    match t with
    | String c r =>
        if Ascii.eqb c "+" then parse_unsigned r
        else if Ascii.eqb c "-" then option_map Z.opp (parse_unsigned r)
        else parse_unsigned t
    | EmptyString => None
    end in
  match parsed with
  | Some z => if Nat.leb (count_digits t) max_str_digits then Some z else None
  | None => None
  end.

End PyStr.

Import PyStr.

Example strip_ex : strip "  Ann  " = "Ann"%string.
Proof. reflexivity. Qed.
Example lower_ex : lower "DoNe" = "done"%string.
Proof. reflexivity. Qed.
Example int_ex1 : py_int " -0_7 " = Some (-7)%Z.
Proof. reflexivity. Qed.
Example int_ex2 : py_int "1__0" = None.
Proof. reflexivity. Qed.
Example int_ex3 : py_int "abc" = None.
Proof. reflexivity. Qed.

Fixpoint repeat_str (n : nat) (s : string) : string :=
  match n with O => EmptyString | S k => append s (repeat_str k s) end.

Example int_ex4 : py_int (append (repeat_str 4299 "0") "5") = Some 5%Z.
Proof. vm_compute. reflexivity. Qed.
Example int_ex5 : py_int (append (repeat_str 4300 "0") "5") = None.
Proof. vm_compute. reflexivity. Qed.

(* ------------------------------------------------------------------ *)
(** ** Data model: [class Student(TypedDict)] and the [students] list *)

Record Student := mkStudent { name : string; grades : list Z }.

Definition registry := list Student.

(** One line of the interactive input, a Ctrl+C typed at the prompt, or
    a line whose bytes do not decode in the encoding of stdin. *)
Inductive input_line := Line (s : string) | CtrlC | Undecodable.

(** The exceptions the program can raise. *)
Inductive exn :=
  | ValueError | UnicodeDecodeError | ZeroDivisionError | OverflowError
  | EOFError | KeyboardInterrupt.

(** [except h]: does the handler for class [h] catch [e]?
    [UnicodeDecodeError] is a subclass of [ValueError]. *)
Definition exn_matches (h e : exn) : bool :=
  match h, e with
  | ValueError, (ValueError | UnicodeDecodeError) => true
  | UnicodeDecodeError, UnicodeDecodeError
  | ZeroDivisionError, ZeroDivisionError | OverflowError, OverflowError
  | EOFError, EOFError | KeyboardInterrupt, KeyboardInterrupt => true
  | _, _ => false
  end.

(** Python floats: binary64. *)
Module PyFloat.

Definition prec : Z := 53.
Definition emax : Z := 1024.

Definition float : Type := spec_float.

(** [float(n)] for an int [n] (small enough), correctly rounded. *)
Definition of_Z (n : Z) : float := binary_normalize prec emax n 0 false.

(** The exact value of an integer, as an operand of a correctly rounded
    operation. *)
Definition exact_Z (n : Z) : float :=
  match n with
  | Z0 => S754_zero false
  | Zpos p => S754_finite false p 0
  | Zneg p => S754_finite true p 0
  end.

Definition add (x y : float) : float := SFadd prec emax x y.
Definition sub (x y : float) : float := SFsub prec emax x y.
Definition div (x y : float) : float := SFdiv prec emax x y.

Definition is_finite (x : float) : bool :=
  match x with S754_zero _ | S754_finite _ _ _ => true | _ => false end.

Definition is_zero (x : float) : bool :=
  match x with S754_zero _ => true | _ => false end.

End PyFloat.

Import PyFloat.

(** One constructor per [print] call of the source. *)
Inductive msg :=
  | MsgNameEmpty                          (* "Student name cannot be empty." *)
  | MsgAlreadyExists (n : string)         (* "Student '{name}' already exists." *)
  | MsgAdded (n : string)                 (* "Student '{name}' added." *)
  | MsgNoStudentsAddFirst                 (* "No students found. Please add a student first." *)
  | MsgNotFound (n : string)              (* "Student '{name}' not found." *)
  | MsgInvalidNumber                      (* "Invalid input. Please enter a number." *)
  | MsgInvalidGrade                       (* "Invalid grade. Please enter a value between 0 and 100." *)
  | MsgGradesUpdated (n : string) (k : Z) (* "Grades updated for ... (k grade(s) added)" *)
  | MsgNoStudentsReport                   (* "No students to report." *)
  | MsgReportHeader                       (* "--- Student Report ---" *)
  | MsgAvgNA (n : string)                 (* "{name}'s average grade is N/A." *)
  | MsgAvg (n : string) (a : float)           (* "{name}'s average grade is {avg:.1f}." *)
  | MsgNoGradesYet                        (* "No grades have been added yet." *)
  | MsgRule                               (* "------------------------" *)
  | MsgMaxAvg (a : float)
  | MsgMinAvg (a : float)
  | MsgOverallAvg (a : float)
  | MsgNoStudentsTop                      (* "No students found." *)
  | MsgNoGradesTop                        (* "No grades available to determine top performer." *)
  | MsgTop (n : string) (a : float)
  | MsgMenu                               (* print_menu() *)
  | MsgInvalidChoiceNumber                (* "Invalid choice. Please enter a number from 1 to 5." *)
  | MsgInvalidChoiceRange                 (* "Invalid choice. Please select a number from 1 to 5." *)
  | MsgExiting.                           (* "Exiting program." *)

Record St := mkSt { students : registry; stdin : list input_line; stdout : list msg }.

Definition set_students (r : registry) (st : St) : St :=
  mkSt r (stdin st) (stdout st).
Definition set_stdin (l : list input_line) (st : St) : St :=
  mkSt (students st) l (stdout st).
Definition emit (m : msg) (st : St) : St :=
  mkSt (students st) (stdin st) (stdout st ++ [m]).

(* ------------------------------------------------------------------ *)
(** ** A state/exception monad *)

Module PyM.

Definition M (A : Type) : Type := St -> (exn + A) * St.

Definition ret {A} (a : A) : M A := fun st => (inr a, st).

Definition bind {A B} (m : M A) (f : A -> M B) : M B :=
  fun st => match m st with
            | (inr a, st') => f a st'
            | (inl e, st') => (inl e, st')
            end.

Definition raise {A} (e : exn) : M A := fun st => (inl e, st).

(** [try: m except e: h] *)
Definition catch {A} (m : M A) (e : exn) (h : M A) : M A :=
  fun st => match m st with
            | (inl e', st') => if exn_matches e e' then h st' else (inl e', st')
            | r => r
            end.

Definition print (m : msg) : M unit := fun st => (inr tt, emit m st).

(** [input(prompt)]: the prompt text is not recorded. *)
Definition input : M string :=
  fun st => match stdin st with
            | [] => (inl EOFError, st)
            | CtrlC :: rest => (inl KeyboardInterrupt, set_stdin rest st)
            | Undecodable :: rest => (inl UnicodeDecodeError, set_stdin rest st)
            | Line s :: rest => (inr s, set_stdin rest st)
            end.

Definition get_stdin : M (list input_line) := fun st => (inr (stdin st), st).
Definition get_students : M registry := fun st => (inr (students st), st).
Definition put_students (r : registry) : M unit :=
  fun st => (inr tt, set_students r st).

End PyM.

Import PyM.

Notation "x <- m ;; k" := (bind m (fun x => k))
  (at level 61, m at next level, right associativity).
Notation "m ;; k" := (bind m (fun _ => k))
  (at level 61, right associativity).

(** [int(s)], raising [ValueError]. *)
Definition int_ (s : string) : M Z :=
  match py_int s with Some z => ret z | None => raise ValueError end.

(** The least magnitude that rounds to infinity in binary64
    ([2^1024 - 2^970], half an ulp above the largest finite float). *)
Definition overflow_bound : Z := (2 ^ 1024 - 2 ^ 970)%Z.

(** Does the int division [a / b] overflow a float? *)
Definition int_div_overflows (a b : Z) : bool :=
  (overflow_bound * Z.abs b <=? Z.abs a)%Z.

(** [a / b] for two ints: the correctly rounded quotient, [ZeroDivisionError]
    when [b = 0], [OverflowError] when the quotient rounds beyond the
    largest float. *)
Definition int_truediv (a b : Z) : M float :=
  if (b =? 0)%Z then raise ZeroDivisionError
  else if int_div_overflows a b then raise OverflowError
  else ret (div (exact_Z a) (exact_Z b)).

(** [x / len(l)] for a float [x]: [len(l)] is converted to a float. *)
Definition float_div_len (x : float) (n : nat) : M float :=
  if Nat.eqb n 0 then raise ZeroDivisionError
  else ret (div x (of_Z (Z.of_nat n))).

(** [a < b] on floats. *)
Definition flt_b (a b : float) : bool := SFltb a b.

(** [sum(l)] for a list of ints. *)
Definition sum_Z (l : list Z) : Z := fold_left Z.add l 0%Z.

(** The float loop of CPython's [sum] (3.12 and later): Neumaier's
    compensated summation; the compensation [c] is added at the end when
    it is non-zero and finite. *)
Fixpoint fsum_loop (l : list float) (f c : float) : float :=
  match l with
  | [] => if negb (is_zero c) && is_finite c then add f c else f
  | x :: rest =>
      let t := add f x in
      let c' := if SFleb (SFabs x) (SFabs f) then add c (add (sub f t) x)
                else add c (add (sub x t) f) in
      fsum_loop rest t c'
  end.

(** [sum(l)] for a non-empty list of floats: the start value is the int
    0, and [0 + x] is [0.0 + x].  The program never sums an empty list of
    floats. *)
Definition py_fsum (l : list float) : float :=
  match l with
  | [] => S754_zero false
  | x :: rest => fsum_loop rest (add (of_Z 0) x) (S754_zero false)
  end.

(** CPython's [max(iterable, key=key)]: the first item is kept and
    replaced only by an item whose key is strictly greater. *)
Fixpoint max_loop {A} (key : A -> M float) (l : list A) (best : A) (bestv : float) : M A :=
  match l with
  | [] => ret best
  | x :: rest =>
      v <- key x ;;
      if flt_b bestv v then max_loop key rest x v else max_loop key rest best bestv
  end.

Definition py_max_key {A} (key : A -> M float) (l : list A) : M A :=
  match l with
  | [] => raise ValueError
  | x :: rest => v <- key x ;; max_loop key rest x v
  end.

(** [min]: replaced only by a strictly smaller item. *)
Fixpoint min_loop (l : list float) (best : float) : M float :=
  match l with
  | [] => ret best
  | x :: rest => if flt_b x best then min_loop rest x else min_loop rest best
  end.

Definition py_max (l : list float) : M float := py_max_key ret l.

Definition py_min (l : list float) : M float :=
  match l with
  | [] => raise ValueError
  | x :: rest => min_loop rest x
  end.

(* ------------------------------------------------------------------ *)
(** ** The program *)

(** [find_student]: the generator [(s for s in students if
    s["name"].lower() == normalized)] with the position of the record
    it yields (the dict object that callers then mutate). *)
Fixpoint find_student_from (l : registry) (normalized : string) (i : nat)
  : option (nat * Student) :=
  match l with
  | [] => None
  | s :: rest =>
      if String.eqb (lower (name s)) normalized then Some (i, s)
      else find_student_from rest normalized (S i)
  end.

Definition find_student_at (students : registry) (nm : string) : option (nat * Student) :=
  let normalized := lower (strip nm) in
  find_student_from students normalized 0.

Definition find_student (students : registry) (nm : string) : option Student :=
  option_map snd (find_student_at students nm).

Definition add_new_student : M unit :=
  raw <- input ;;
  let nm := strip raw in
  if is_empty nm then print MsgNameEmpty
  else
    students <- get_students ;;
    match find_student students nm with
    | Some _ => print (MsgAlreadyExists nm)
    | None => put_students (students ++ [mkStudent nm []]) ;; print (MsgAdded nm)
    end.

(** [l[i] = f(l[i])]; out of range never happens in the program. *)
Fixpoint update_nth {A} (i : nat) (f : A -> A) (l : list A) : list A :=
  match l, i with
  | [], _ => []
  | x :: rest, O => f x :: rest
  | x :: rest, S j => x :: update_nth j f rest
  end.

(** [student["grades"].append(grade)] on the record at position [i]. *)
Definition append_grade (i : nat) (grade : Z) : M unit :=
  students <- get_students ;;
  put_students (update_nth i (fun s => mkStudent (name s) (grades s ++ [grade])) students).

(** The [while True] loop of [add_grades_for_student].  Each iteration
    reads one line with [input()], so the loop recurses on the lines
    still pending on stdin. *)
Fixpoint grade_loop (pending : list input_line) (i : nat) : M unit :=
  match pending with
  | [] => input ;; ret tt
  | _ :: rest =>
      raw <- input ;;
      let grade_str := strip raw in
      if String.eqb (lower grade_str) "done" then ret tt
      else
        r <- catch (g <- int_ grade_str ;; ret (Some g)) ValueError
                   (print MsgInvalidNumber ;; ret None) ;;
        match r with
        | None => grade_loop rest i
        | Some grade =>
            if negb ((0 <=? grade)%Z && (grade <=? 100)%Z) then
              print MsgInvalidGrade ;; grade_loop rest i
            else append_grade i grade ;; grade_loop rest i
        end
  end.

Definition add_grades_for_student : M unit :=
  students <- get_students ;;
  match students with
  | [] => print MsgNoStudentsAddFirst
  | _ :: _ =>
      raw <- input ;;
      let nm := strip raw in
      match find_student_at students nm with
      | None => print (MsgNotFound nm)
      | Some (i, student) =>
          let initial_count := length (grades student) in
          pending <- get_stdin ;;
          grade_loop pending i ;;
          students' <- get_students ;;
          let cur := nth i students' student in
          let grades_added := (Z.of_nat (length (grades cur)) - Z.of_nat initial_count)%Z in
          print (MsgGradesUpdated (name cur) grades_added)
      end
  end.

(** [sum(grades) / len(grades)] *)
Definition student_avg (s : Student) : M float :=
  int_truediv (sum_Z (grades s)) (Z.of_nat (length (grades s))).

(** The [for student in students] loop of [show_report]. *)
Fixpoint report_loop (l : registry) (averages : list float) : M (list float) :=
  match l with
  | [] => ret averages
  | student :: rest =>
      avg <- catch (a <- student_avg student ;; ret (Some a)) ZeroDivisionError
                   (ret None) ;;
      match avg with
      | None => print (MsgAvgNA (name student)) ;; report_loop rest averages
      | Some a => print (MsgAvg (name student) a) ;; report_loop rest (averages ++ [a])
      end
  end.

Definition show_report : M unit :=
  students <- get_students ;;
  match students with
  | [] => print MsgNoStudentsReport
  | _ :: _ =>
      print MsgReportHeader ;;
      averages <- report_loop students [] ;;
      match averages with
      | [] => print MsgNoGradesYet ;; print MsgRule
      | _ :: _ =>
          max_avg <- py_max averages ;;
          min_avg <- py_min averages ;;
          overall_avg <- float_div_len (py_fsum averages) (length averages) ;;
          print MsgRule ;; print (MsgMaxAvg max_avg) ;; print (MsgMinAvg min_avg) ;;
          print (MsgOverallAvg overall_avg) ;; print MsgRule
      end
  end.

Definition has_grades (s : Student) : bool :=
  match grades s with [] => false | _ :: _ => true end.

Definition find_top_performer : M unit :=
  students <- get_students ;;
  match students with
  | [] => print MsgNoStudentsTop
  | _ :: _ =>
      let students_with_grades := filter has_grades students in
      match students_with_grades with
      | [] => print MsgNoGradesTop
      | _ :: _ =>
          top_student <- py_max_key student_avg students_with_grades ;;
          top_avg <- student_avg top_student ;;
          print (MsgTop (name top_student) top_avg)
      end
  end.

Inductive loop_ctl := Continue | Break.

(** One iteration of the [while True] loop of [main]. *)
Definition main_iter : M loop_ctl :=
  print MsgMenu ;;
  raw <- input ;;
  let choice_str := strip raw in
  r <- catch (c <- int_ choice_str ;; ret (Some c)) ValueError
             (print MsgInvalidChoiceNumber ;; ret None) ;;
  match r with
  | None => ret Continue
  | Some choice =>
      if (choice =? 1)%Z then add_new_student ;; ret Continue
      else if (choice =? 2)%Z then add_grades_for_student ;; ret Continue
      else if (choice =? 3)%Z then show_report ;; ret Continue
      else if (choice =? 4)%Z then find_top_performer ;; ret Continue
      else if (choice =? 5)%Z then print MsgExiting ;; ret Break
      else print MsgInvalidChoiceRange ;; ret Continue
  end.

(** At most [fuel] iterations of the loop; [true] when it left by [break]. *)
Fixpoint main_loop (fuel : nat) : M bool :=
  match fuel with
  | O => ret false
  | S f =>
      ctl <- main_iter ;;
      match ctl with
      | Break => ret true
      | Continue => main_loop f
      end
  end.

(** [main()] on the given stdin, [students] starting empty. *)
Definition main (fuel : nat) (inp : list input_line) : (exn + bool) * St :=
  catch (main_loop fuel) KeyboardInterrupt (print MsgExiting ;; ret true)
        (mkSt [] inp []).

Definition L (s : string) : input_line := Line s.

Example scenario_ann :
  stdout (snd (main 10 (map L ["3"; "1"; "Ann"; "3"; "2"; "ann"; "50";
                               "notanumber"; "150"; "done"; "3"; "5"])%string))
  = [MsgMenu; MsgNoStudentsReport; MsgMenu; MsgAdded "Ann";
     MsgMenu; MsgReportHeader; MsgAvgNA "Ann"; MsgNoGradesYet; MsgRule;
     MsgMenu; MsgInvalidNumber; MsgInvalidGrade; MsgGradesUpdated "Ann" 1;
     MsgMenu; MsgReportHeader; MsgAvg "Ann" (of_Z 50); MsgRule;
     MsgMaxAvg (of_Z 50); MsgMinAvg (of_Z 50); MsgOverallAvg (of_Z 50); MsgRule;
     MsgMenu; MsgExiting]%string.
Proof. vm_compute. reflexivity. Qed.

(* ------------------------------------------------------------------ *)
(** ** Reference definitions taken from the spec *)

(** The spec's normalized name: trimmed, then lowercased. *)
Definition normalized (s : string) : string := lower (strip s).

(** "[res] is the first record of [r] satisfying [P]", [None] when no
    record does. *)
Definition first_match (P : Student -> Prop) (r : registry) (res : option Student) : Prop :=
  match res with
  | Some s => exists pre post, r = pre ++ s :: post /\ P s /\ Forall (fun p => ~ P p) pre
  | None => Forall (fun p => ~ P p) r
  end.

(** The lookup of spec 4.1, comparing normalized stored names. *)
Definition spec_find (r : registry) (nm : string) : option Student :=
  find (fun s => String.eqb (normalized (name s)) (normalized nm)) r.

(** Stored names carry no surrounding whitespace. *)
Definition names_trimmed (r : registry) : Prop :=
  Forall (fun s => strip (name s) = name s) r.

(* ------------------------------------------------------------------ *)
(** ** String lemmas *)

Lemma lstrip_idem (s : string) : lstrip (lstrip s) = lstrip s.
Proof.
  induction s as [|c s IH]; simpl; [reflexivity|].
  destruct (isspace c) eqn:E; [exact IH|simpl; rewrite E; reflexivity].
Qed.

Lemma rstrip_idem (s : string) : rstrip (rstrip s) = rstrip s.
Proof.
  induction s as [|c s IH]; simpl; [reflexivity|].
  destruct (isspace c && is_empty (rstrip s)) eqn:E; [reflexivity|].
  simpl. rewrite IH, E. reflexivity.
Qed.

Lemma lstrip_rstrip (s : string) : lstrip (rstrip s) = rstrip (lstrip s).
Proof.
  induction s as [|c s IH]; simpl; [reflexivity|].
  destruct (isspace c) eqn:E; simpl.
  - destruct (is_empty (rstrip s)) eqn:R; simpl.
    + rewrite <- IH. destruct (rstrip s); [reflexivity|discriminate].
    + rewrite E. exact IH.
  - rewrite E. reflexivity.
Qed.

Lemma strip_idem (s : string) : strip (strip s) = strip s.
Proof.
  unfold strip. rewrite lstrip_rstrip, lstrip_idem, rstrip_idem. reflexivity.
Qed.

Lemma find_student_from_find (l : registry) (n : string) (i : nat) :
  option_map snd (find_student_from l n i)
  = find (fun s => String.eqb (lower (name s)) n) l.
Proof.
  revert i; induction l as [|s l IH]; intro i; simpl; [reflexivity|].
  destruct (String.eqb (lower (name s)) n); [reflexivity|apply IH].
Qed.

Lemma find_student_eq (r : registry) (nm : string) :
  find_student r nm = find (fun s => String.eqb (lower (name s)) (lower (strip nm))) r.
Proof. apply find_student_from_find. Qed.

Lemma find_first_match (f : Student -> bool) (r : registry) :
  first_match (fun s => f s = true) r (find f r).
Proof.
  induction r as [|s r IH]; simpl; [constructor|].
  destruct (f s) eqn:E.
  - exists [], r. split; [reflexivity|]. split; [exact E|constructor].
  - destruct (find f r) as [t|] eqn:F; simpl in *.
    + destruct IH as (pre & post & -> & Ht & Hpre).
      exists (s :: pre), post. split; [reflexivity|]. split; [exact Ht|].
      constructor; [congruence|exact Hpre].
    + constructor; [congruence|exact IH].
Qed.

Lemma first_match_iff (P Q : Student -> Prop) (r : registry) (res : option Student) :
  (forall s, In s r -> (P s <-> Q s)) -> first_match P r res -> first_match Q r res.
Proof.
  intros HPQ H. destruct res as [s|]; simpl in *.
  - destruct H as (pre & post & -> & Hs & Hpre).
    exists pre, post. split; [reflexivity|]. split.
    + apply HPQ; [apply in_or_app; right; left; reflexivity|exact Hs].
    + rewrite Forall_forall in *. intros p Hp HQ. apply (Hpre p Hp).
      apply HPQ; [apply in_or_app; left; exact Hp|exact HQ].
  - rewrite Forall_forall in *. intros p Hp HQ. apply (H p Hp), HPQ; assumption.
Qed.

Lemma find_student_first (r : registry) (nm : string) :
  first_match (fun s => lower (name s) = lower (strip nm)) r (find_student r nm).
Proof.
  rewrite find_student_eq.
  eapply first_match_iff; [|apply find_first_match].
  intros s _. simpl. apply String.eqb_eq.
Qed.

Lemma find_student_first_trimmed (r : registry) (nm : string) :
  names_trimmed r ->
  first_match (fun s => normalized (name s) = normalized nm) r (find_student r nm).
Proof.
  intro Ht. eapply first_match_iff; [|apply find_student_first].
  intros s Hs. unfold names_trimmed in Ht. rewrite Forall_forall in Ht.
  unfold normalized. rewrite (Ht s Hs). reflexivity.
Qed.

(* ------------------------------------------------------------------ *)
(** ** Claims *)

(** C7 (counterexample): the lookup lowercases the stored name but does
    not trim it, so a stored name " Ann" is not found by the input "Ann",
    although its normalized form "ann" equals that of the input. *)
Lemma find_student_untrimmed_stored_name :
  spec_find [mkStudent " Ann" []] "Ann" = Some (mkStudent " Ann" [])
  /\ find_student [mkStudent " Ann" []] "Ann" = None.
Proof. split; reflexivity. Qed.

(** C7 (amended): for every registry and input, [find_student] returns the
    first record in registry order whose lowercased stored name equals the
    trimmed, lowercased input, and [None] when there is none; it is a pure
    function of the registry and the input.  When the stored names are
    trimmed (as [add_new_student] stores them) this is the first record
    whose normalized name equals the normalized input. *)
Theorem find_student_spec (r : registry) (nm : string) :
  first_match (fun s => lower (name s) = lower (strip nm)) r (find_student r nm)
  /\ (names_trimmed r ->
      first_match (fun s => normalized (name s) = normalized nm) r (find_student r nm)).
Proof.
  split; [apply find_student_first|apply find_student_first_trimmed].
Qed.

Lemma find_student_spec_witness :
  names_trimmed [mkStudent "Bob" []; mkStudent "Ann" [1%Z]]
  /\ first_match (fun s => normalized (name s) = normalized " ANN ")
       [mkStudent "Bob" []; mkStudent "Ann" [1%Z]]
       (find_student [mkStudent "Bob" []; mkStudent "Ann" [1%Z]] " ANN ").
Proof.
  assert (H : names_trimmed [mkStudent "Bob" []; mkStudent "Ann" [1%Z]])
    by (repeat constructor).
  split; [exact H|].
  exact (proj2 (find_student_spec _ " ANN ") H).
Defined.

Lemma bind_input (st : St) (raw : string) (rest : list input_line) {A} (k : string -> M A) :
  stdin st = Line raw :: rest -> bind input k st = k raw (set_stdin rest st).
Proof. intro H. unfold bind, input. rewrite H. reflexivity. Qed.

Lemma is_empty_true (s : string) : is_empty s = true <-> s = EmptyString.
Proof. destruct s; simpl; split; congruence. Qed.

(** C3 (counterexample): a stored name " Ann" has the normalized name
    "ann", like the input "Ann", yet [add_new_student] accepts "Ann"
    instead of reporting a duplicate. *)
Lemma add_new_student_untrimmed_duplicate :
  (exists s, In s [mkStudent " Ann" []] /\ normalized (name s) = normalized "Ann")
  /\ add_new_student (mkSt [mkStudent " Ann" []] [L "Ann"] [])
     = (inr tt, mkSt [mkStudent " Ann" []; mkStudent "Ann" []] [] [MsgAdded "Ann"]).
Proof.
  split; [|reflexivity].
  exists (mkStudent " Ann" []). split; [left; reflexivity|reflexivity].
Qed.

(** The three outcomes of [add_new_student] on an input line [raw]. *)
Lemma add_new_student_cases (st : St) (raw : string) (rest : list input_line) :
  stdin st = Line raw :: rest ->
  (strip raw = EmptyString ->
     add_new_student st = (inr tt, emit MsgNameEmpty (set_stdin rest st)))
  /\ (strip raw <> EmptyString ->
      (exists s, In s (students st) /\ lower (name s) = normalized raw) ->
      add_new_student st = (inr tt, emit (MsgAlreadyExists (strip raw)) (set_stdin rest st)))
  /\ (strip raw <> EmptyString ->
      (forall s, In s (students st) -> lower (name s) <> normalized raw) ->
      add_new_student st
      = (inr tt, emit (MsgAdded (strip raw))
                   (set_students (students st ++ [mkStudent (strip raw) []])
                                 (set_stdin rest st)))).
Proof.
  intro Hin. unfold add_new_student. rewrite (bind_input _ _ _ _ Hin).
  pose proof (find_student_first (students st) (strip raw)) as Hf.
  rewrite strip_idem in Hf. unfold normalized.
  split; [|split].
  - intro He. rewrite He. reflexivity.
  - intros Hne (s & Hs & Heq).
    destruct (is_empty (strip raw)) eqn:E; [apply is_empty_true in E; contradiction|].
    unfold bind, get_students. simpl.
    destruct (find_student (students st) (strip raw)) as [t|]; [reflexivity|].
    simpl in Hf. rewrite Forall_forall in Hf. exfalso. exact (Hf s Hs Heq).
  - intros Hne Hall.
    destruct (is_empty (strip raw)) eqn:E; [apply is_empty_true in E; contradiction|].
    unfold bind, get_students. simpl.
    destruct (find_student (students st) (strip raw)) as [t|]; [|reflexivity].
    destruct Hf as (pre & post & Hr & Ht & _). exfalso.
    apply (Hall t); [simpl; rewrite Hr; apply in_or_app; right; left; reflexivity|exact Ht].
Qed.

(** C3 (amended): reading the raw name [raw], [add_new_student] reports
    an empty name exactly when the trimmed name is empty; otherwise it
    reports a duplicate exactly when some record's lowercased stored name
    equals the trimmed, lowercased input; in both cases the registry is
    unchanged; otherwise it appends [{name = strip raw, grades = []}] at
    the end and reports the stored name. *)
Theorem add_new_student_spec (st : St) (raw : string) (rest : list input_line) :
  stdin st = Line raw :: rest ->
  (strip raw = EmptyString ->
     add_new_student st = (inr tt, emit MsgNameEmpty (set_stdin rest st)))
  /\ (strip raw <> EmptyString ->
      (exists s, In s (students st) /\ lower (name s) = normalized raw) ->
      add_new_student st = (inr tt, emit (MsgAlreadyExists (strip raw)) (set_stdin rest st)))
  /\ (strip raw <> EmptyString ->
      (forall s, In s (students st) -> lower (name s) <> normalized raw) ->
      add_new_student st
      = (inr tt, emit (MsgAdded (strip raw))
                   (set_students (students st ++ [mkStudent (strip raw) []])
                                 (set_stdin rest st)))).
Proof. apply add_new_student_cases. Qed.

Lemma add_new_student_spec_witness :
  add_new_student (mkSt [mkStudent "Ann" []] [L " Bob "] [])
  = (inr tt, mkSt [mkStudent "Ann" []; mkStudent "Bob" []] [] [MsgAdded "Bob"]).
Proof.
  refine (proj2 (proj2 (add_new_student_spec
            (mkSt [mkStudent "Ann" []] [L " Bob "] []) " Bob " [] eq_refl)) _ _).
  - discriminate.
  - intros s [<-|[]]. discriminate.
Defined.

(* ------------------------------------------------------------------ *)
(** ** The grade loop *)

(** The verdicts of spec 4.3 on one grade token. *)
Inductive token_verdict := Accepted (g : Z) | InvalidFormat | OutOfRange (g : Z).

Definition classify (t : string) : token_verdict :=
  match py_int (strip t) with
  | None => InvalidFormat
  | Some g => if (0 <=? g)%Z && (g <=? 100)%Z then Accepted g else OutOfRange g
  end.

(** The sentinel test: case-insensitive "done". *)
Definition is_done (t : string) : bool := String.eqb (lower (strip t)) "done".

Fixpoint accepted (toks : list string) : list Z :=
  match toks with
  | [] => []
  | t :: rest =>
      match classify t with
      | Accepted g => g :: accepted rest
      | _ => accepted rest
      end
  end.

Definition verdict_msgs (v : token_verdict) : list msg :=
  match v with
  | Accepted _ => []
  | InvalidFormat => [MsgInvalidNumber]
  | OutOfRange _ => [MsgInvalidGrade]
  end.

Definition rejections (toks : list string) : list msg :=
  concat (map (fun t => verdict_msgs (classify t)) toks).

Definition app_grades (gs : list Z) (s : Student) : Student :=
  mkStudent (name s) (grades s ++ gs).

Lemma update_nth_id {A} (i : nat) (f : A -> A) (l : list A) :
  (forall x, f x = x) -> update_nth i f l = l.
Proof.
  intro Hf. revert i; induction l as [|x l IH]; intros [|i]; simpl;
    rewrite ?Hf, ?IH; reflexivity.
Qed.

Lemma update_nth_comp {A} (i : nat) (f g : A -> A) (l : list A) :
  update_nth i f (update_nth i g l) = update_nth i (fun x => f (g x)) l.
Proof.
  revert i; induction l as [|x l IH]; intros [|i]; simpl; rewrite ?IH; reflexivity.
Qed.

Lemma update_nth_ext {A} (i : nat) (f g : A -> A) (l : list A) :
  (forall x, f x = g x) -> update_nth i f l = update_nth i g l.
Proof.
  intro Hfg. revert i; induction l as [|x l IH]; intros [|i]; simpl;
    rewrite ?Hfg, ?IH; reflexivity.
Qed.

Lemma length_update_nth {A} (i : nat) (f : A -> A) (l : list A) :
  length (update_nth i f l) = length l.
Proof.
  revert i; induction l as [|x l IH]; intros [|i]; simpl; rewrite ?IH; reflexivity.
Qed.

Lemma nth_error_update_nth_eq {A} (i : nat) (f : A -> A) (l : list A) :
  nth_error (update_nth i f l) i = option_map f (nth_error l i).
Proof.
  revert i; induction l as [|x l IH]; intros [|i]; simpl; rewrite ?IH; reflexivity.
Qed.

Lemma nth_error_update_nth_ne {A} (i j : nat) (f : A -> A) (l : list A) :
  j <> i -> nth_error (update_nth i f l) j = nth_error l j.
Proof.
  revert i j; induction l as [|x l IH]; intros [|i] [|j] Hne; simpl;
    try reflexivity; try (exfalso; lia).
  apply IH. lia.
Qed.

Lemma app_grades_nil (s : Student) : app_grades [] s = s.
Proof. destruct s. unfold app_grades. simpl. rewrite app_nil_r. reflexivity. Qed.

Lemma app_grades_app (gs hs : list Z) (s : Student) :
  app_grades hs (app_grades gs s) = app_grades (gs ++ hs) s.
Proof. unfold app_grades. simpl. rewrite app_assoc. reflexivity. Qed.

Ltac mstep :=
  unfold bind, ret, raise, catch, print, input, int_, append_grade,
    get_students, put_students, get_stdin, set_stdin, set_students, emit in *;
  simpl in *.

(** Whatever it reads, the grade loop changes the registry only by
    appending grades to the record at position [i]. *)
Lemma grade_loop_frame (pending : list input_line) (i : nat) (st : St) :
  exists extra,
    students (snd (grade_loop pending i st)) = update_nth i (app_grades extra) (students st)
    /\ Forall (fun g => (0 <= g <= 100)%Z) extra.
Proof.
  assert (Hnil : forall r, update_nth i (app_grades []) r = r)
    by (intro r; apply update_nth_id, app_grades_nil).
  revert st; induction pending as [|x pending IH]; intro st.
  - exists []. rewrite Hnil. split; [|constructor].
    simpl. unfold bind, input. destruct (stdin st) as [|[]]; reflexivity.
  - simpl. unfold bind at 1, input.
    destruct (stdin st) as [|[raw| |] rest];
      [exists []; rewrite Hnil; split; [reflexivity|constructor]| |
       exists []; rewrite Hnil; split; [reflexivity|constructor]..].
    destruct (String.eqb (lower (strip raw)) "done");
      [exists []; rewrite Hnil; split; [reflexivity|constructor]|].
    unfold bind at 1, catch, int_.
    destruct (py_int (strip raw)) as [g|].
    + mstep.
      destruct ((0 <=? g)%Z && (g <=? 100)%Z) eqn:B; simpl.
      * match goal with |- context [grade_loop pending i ?s] =>
          destruct (IH s) as (extra & He & Hr) end.
        exists (g :: extra). rewrite He. simpl. split.
        -- rewrite update_nth_comp. apply update_nth_ext. intro y.
           unfold app_grades. simpl. rewrite <- app_assoc. reflexivity.
        -- apply andb_prop in B. destruct B as [B1 B2].
           apply Z.leb_le in B1, B2. constructor; [lia|exact Hr].
      * match goal with |- context [grade_loop pending i ?s] =>
          destruct (IH s) as [extra He] end.
        exists extra. exact He.
    + mstep.
      match goal with |- context [grade_loop pending i ?s] =>
        destruct (IH s) as [extra He] end.
      exists extra. exact He.
Qed.

(** On a token stream [toks] ended by a sentinel [d], the grade loop
    appends the accepted grades in order and reports each rejection. *)
Lemma grade_loop_tokens (toks : list string) (d : string) (rest : list input_line)
      (i : nat) (r : registry) (out : list msg) :
  Forall (fun t => is_done t = false) toks -> is_done d = true ->
  grade_loop (map Line toks ++ Line d :: rest) i (mkSt r (map Line toks ++ Line d :: rest) out)
  = (inr tt, mkSt (update_nth i (app_grades (accepted toks)) r) rest (out ++ rejections toks)).
Proof.
  intros Htoks Hd. revert r out.
  induction Htoks as [|t toks Ht Htoks IH]; intros r out.
  - simpl. unfold is_done in Hd. mstep. rewrite Hd.
    rewrite update_nth_id by apply app_grades_nil. rewrite app_nil_r. reflexivity.
  - simpl. unfold is_done in Ht. mstep. rewrite Ht.
    unfold rejections in *. simpl. unfold classify.
    destruct (py_int (strip t)) as [g|]; simpl.
    + destruct ((0 <=? g)%Z && (g <=? 100)%Z); simpl.
      * rewrite IH. rewrite update_nth_comp. f_equal. f_equal.
        apply update_nth_ext. intro y. apply app_grades_app.
      * rewrite IH. rewrite <- app_assoc. reflexivity.
    + rewrite IH. rewrite <- app_assoc. reflexivity.
Qed.

Lemma find_student_from_nth (l : registry) (n : string) (k j : nat) (s : Student) :
  find_student_from l n k = Some (j, s) -> (k <= j)%nat /\ nth_error l (j - k) = Some s.
Proof.
  revert k; induction l as [|x l IH]; intros k H; simpl in H; [discriminate|].
  destruct (String.eqb (lower (name x)) n).
  - injection H as <- <-. rewrite Nat.sub_diag. split; [lia|reflexivity].
  - destruct (IH (S k) H) as [Hle Hn]. split; [lia|].
    replace (j - k)%nat with (S (j - S k)) by lia. exact Hn.
Qed.

Lemma find_student_at_nth (r : registry) (nm : string) (i : nat) (s : Student) :
  find_student_at r nm = Some (i, s) -> nth_error r i = Some s.
Proof.
  intro H. apply find_student_from_nth in H. rewrite Nat.sub_0_r in H. apply H.
Qed.

(** C2: when the target student is found at position [i] and the grade
    tokens [toks] are followed by the sentinel [d], [add_grades_for_student]
    appends to that student exactly the accepted grades of [toks], in
    order; every other token yields one rejection message ([InvalidFormat]
    or [OutOfRange]) and the loop goes on; the reported count (the new
    grade count minus the old one) is the number of accepted tokens. *)
Theorem add_grades_for_student_tokens (st : St) (raw d : string) (toks : list string)
    (rest : list input_line) (i : nat) (s : Student) :
  find_student_at (students st) (strip raw) = Some (i, s) ->
  stdin st = Line raw :: map Line toks ++ Line d :: rest ->
  Forall (fun t => is_done t = false) toks ->
  is_done d = true ->
  add_grades_for_student st
  = (inr tt,
     mkSt (update_nth i (app_grades (accepted toks)) (students st)) rest
          (stdout st ++ rejections toks
             ++ [MsgGradesUpdated (name s) (Z.of_nat (length (accepted toks)))])).
Proof.
  destruct st as [r inp out]; simpl. intros Hf -> Htoks Hd.
  pose proof (find_student_at_nth _ _ _ _ Hf) as Hn.
  unfold add_grades_for_student.
  destruct r as [|s0 r']; [destruct i; discriminate|].
  unfold bind at 1, get_students. unfold bind at 1, input. simpl.
  rewrite Hf. unfold bind at 1, get_stdin. simpl.
  unfold set_stdin, bind at 1. simpl.
  rewrite grade_loop_tokens by assumption.
  unfold bind, get_students, print, emit. simpl.
  assert (Hc : nth i (update_nth i (app_grades (accepted toks)) (s0 :: r')) s
               = app_grades (accepted toks) s).
  { apply nth_error_nth. rewrite nth_error_update_nth_eq, Hn. reflexivity. }
  rewrite Hc. unfold app_grades. simpl. rewrite length_app, Nat2Z.inj_add.
  rewrite <- app_assoc.
  do 3 f_equal. do 3 f_equal. lia.
Qed.

Lemma add_grades_for_student_tokens_witness :
  add_grades_for_student
    (mkSt [mkStudent "Ann" []; mkStudent "Bob" [70%Z]]
          (map L [" bob "; "80"; "x"; "150"; "+9_0"; " Done "; "5"]%string) [])
  = (inr tt,
     mkSt [mkStudent "Ann" []; mkStudent "Bob" [70%Z; 80%Z; 90%Z]] [L "5"]
          [MsgInvalidNumber; MsgInvalidGrade; MsgGradesUpdated "Bob" 2]).
Proof.
  refine (add_grades_for_student_tokens
    (mkSt [mkStudent "Ann" []; mkStudent "Bob" [70%Z]]
          (map L [" bob "; "80"; "x"; "150"; "+9_0"; " Done "; "5"]%string) [])
    " bob " " Done " ["80"; "x"; "150"; "+9_0"]%string [L "5"] 1 (mkStudent "Bob" [70%Z])
    eq_refl eq_refl _ eq_refl).
  repeat constructor.
Defined.

(** C8: [add_grades_for_student] leaves the registry as it is when the
    registry is empty or the student is not found; when the student is
    found at position [i], whatever the following input (even one ending
    in end of file or Ctrl+C), the registry keeps its length and order,
    every other record is unchanged and the found record keeps its name
    and gets grades appended. *)
Theorem add_grades_for_student_frame (st : St) :
  (students st = [] -> students (snd (add_grades_for_student st)) = students st)
  /\ (forall raw rest, stdin st = Line raw :: rest ->
        find_student_at (students st) (strip raw) = None ->
        students (snd (add_grades_for_student st)) = students st)
  /\ (forall raw rest i s, stdin st = Line raw :: rest ->
        find_student_at (students st) (strip raw) = Some (i, s) ->
        length (students (snd (add_grades_for_student st))) = length (students st)
        /\ (forall j, j <> i ->
              nth_error (students (snd (add_grades_for_student st))) j
              = nth_error (students st) j)
        /\ exists extra,
             nth_error (students (snd (add_grades_for_student st))) i
             = Some (mkStudent (name s) (grades s ++ extra))).
Proof.
  destruct st as [r inp out]; simpl. split; [|split].
  - intros ->. reflexivity.
  - intros raw rest -> Hf. unfold add_grades_for_student.
    destruct r as [|s0 r']; [reflexivity|].
    unfold bind at 1, get_students. unfold bind at 1, input. simpl.
    rewrite Hf. reflexivity.
  - intros raw rest i s -> Hf.
    pose proof (find_student_at_nth _ _ _ _ Hf) as Hn.
    assert (Hfr : exists extra,
               students (snd (add_grades_for_student (mkSt r (Line raw :: rest) out)))
               = update_nth i (app_grades extra) r).
    { unfold add_grades_for_student.
      destruct r as [|s0 r']; [destruct i; discriminate|].
      unfold bind at 1, get_students. unfold bind at 1, input. simpl.
      rewrite Hf. unfold bind at 1, get_stdin. simpl.
      unfold bind at 1.
      destruct (grade_loop_frame rest i (set_stdin rest (mkSt (s0 :: r') (Line raw :: rest) out)))
        as (extra & He & _).
      exists extra.
      destruct (grade_loop rest i _) as [[e|[]] st2] eqn:G; simpl in He |- *.
      + exact He.
      + exact He. }
    destruct Hfr as [extra He]. rewrite He.
    split; [apply length_update_nth|split].
    + intros j Hj. apply nth_error_update_nth_ne. exact Hj.
    + exists extra. rewrite nth_error_update_nth_eq, Hn. reflexivity.
Qed.

Lemma add_grades_for_student_frame_witness :
  nth_error (students (snd (add_grades_for_student
     (mkSt [mkStudent "Ann" [1%Z]; mkStudent "Bob" []] (map L ["ann"; "7"]%string) [])))) 1%nat
  = Some (mkStudent "Bob" []).
Proof.
  destruct (proj2 (proj2 (add_grades_for_student_frame
     (mkSt [mkStudent "Ann" [1%Z]; mkStudent "Bob" []] (map L ["ann"; "7"]%string) [])))
     "ann"%string [L "7"] 0%nat (mkStudent "Ann" [1%Z]) eq_refl eq_refl) as [_ [Hj _]].
  exact (Hj 1%nat ltac:(discriminate)).
Defined.

(* ------------------------------------------------------------------ *)
(** ** The report *)

Definition graded (s : Student) : Prop := grades s <> [].

Definition grades_in_range (r : registry) : Prop :=
  Forall (fun s => Forall (fun g => (0 <= g <= 100)%Z) (grades s)) r.

(** Spec 4.4: a student's average, sum divided by count, as an exact
    rational. *)
Definition spec_avg (g : list Z) : Q :=
  inject_Z (fold_right Z.add 0%Z g) / inject_Z (Z.of_nat (length g)).

(** The float nearest to that average (ties to even): what [/] computes
    for the two ints [sum(g)] and [len(g)]. *)
Definition favg (g : list Z) : float :=
  div (exact_Z (fold_right Z.add 0%Z g)) (exact_Z (Z.of_nat (length g))).

(** The exact value of a finite float ([0] for infinities and NaN). *)
Definition SF2Q (x : float) : Q :=
  match x with
  | S754_finite s m e =>
      let q := if (0 <=? e)%Z then inject_Z (Zpos m * 2 ^ e)%Z
               else Qmake (Zpos m) (Pos.pow 2 (Z.to_pos (- e))) in
      if s then - q else q
  | _ => 0
  end.

(** Python's [a <= b] and [a < b] on floats. *)
Definition fle (a b : float) : Prop := SFleb a b = true.
Definition flt (a b : float) : Prop := SFltb a b = true.

(** A student whose average [sum / count] is too large for a float. *)
Definition avg_overflows (s : Student) : bool :=
  has_grades s
  && int_div_overflows (fold_right Z.add 0%Z (grades s)) (Z.of_nat (length (grades s))).

Definition no_overflow (r : registry) : Prop :=
  Forall (fun s => avg_overflows s = false) r.

(** The per-student line of the report: N/A for a student without grades. *)
Definition report_line (s : Student) : msg :=
  match grades s with
  | [] => MsgAvgNA (name s)
  | _ :: _ => MsgAvg (name s) (favg (grades s))
  end.

(** The averages of the students that have grades, in registry order. *)
Definition defined_averages (r : registry) : list float :=
  map (fun s => favg (grades s)) (filter has_grades r).

(** [sum(averages) / len(averages)] in binary64. *)
Definition float_mean (l : list float) : float :=
  div (py_fsum l) (of_Z (Z.of_nat (length l))).

(** The exact arithmetic mean of a list of rationals. *)
Definition spec_mean (l : list Q) : Q :=
  fold_right Qplus 0 l / inject_Z (Z.of_nat (length l)).

(** The mean of all raw grades pooled together (what the report does not
    compute). *)
Definition pooled_mean (r : registry) : Q :=
  spec_avg (concat (map grades r)).

(** *** Float comparisons

    On non-NaN floats, [SFcompare] is the lexicographic order of a key:
    sign class, then exponent, then mantissa (both negated for negative
    numbers). *)

Definition fkey (x : float) : Z * Z * Z :=
  match x with
  | S754_infinity true => (-2, 0, 0)%Z
  | S754_finite true m e => (-1, - e, Zneg m)%Z
  | S754_zero _ | S754_nan => (0, 0, 0)%Z
  | S754_finite false m e => (1, e, Zpos m)%Z
  | S754_infinity false => (2, 0, 0)%Z
  end.

Definition lex3 (a b : Z * Z * Z) : comparison :=
  let '(a1, a2, a3) := a in
  let '(b1, b2, b3) := b in
  match Z.compare a1 b1 with
  | Eq => match Z.compare a2 b2 with Eq => Z.compare a3 b3 | c => c end
  | c => c
  end.

Lemma SFcompare_key (x y : float) :
  x <> S754_nan -> y <> S754_nan -> SFcompare x y = Some (lex3 (fkey x) (fkey y)).
Proof.
  intros Hx Hy.
  destruct x as [sx|sx| |sx mx ex]; [| |contradiction|];
  destruct y as [sy|sy| |sy my ey]; try contradiction;
  try destruct sx; try destruct sy; simpl; try reflexivity.
  rewrite Z.compare_opp, (Z.compare_antisym ey ex).
  destruct (Z.compare ey ex); reflexivity.
Qed.

Ltac lex_cases :=
  repeat match goal with
         | a : (Z * Z * Z)%type |- _ => destruct a as [[? ?] ?]
         end;
  unfold lex3 in *;
  repeat match goal with
         | |- context [Z.compare ?x ?y] => destruct (Z.compare_spec x y)
         | H : context [Z.compare ?x ?y] |- _ => destruct (Z.compare_spec x y)
         end;
  simpl in *; try reflexivity; try discriminate; try lia; try congruence.

Lemma lex3_antisym (a b : Z * Z * Z) : lex3 b a = CompOpp (lex3 a b).
Proof. lex_cases. Qed.

Lemma lex3_refl (a : Z * Z * Z) : lex3 a a = Eq.
Proof. lex_cases. Qed.

Lemma lex3_lt_trans (a b c : Z * Z * Z) : lex3 a b = Lt -> lex3 b c = Lt -> lex3 a c = Lt.
Proof. intros. lex_cases. Qed.

Lemma lex3_le_lt (a b c : Z * Z * Z) : lex3 a b <> Gt -> lex3 b c = Lt -> lex3 a c = Lt.
Proof. intros. lex_cases. Qed.

Lemma lex3_le_trans (a b c : Z * Z * Z) : lex3 a b <> Gt -> lex3 b c <> Gt -> lex3 a c <> Gt.
Proof. intros. lex_cases. Qed.

Definition not_nan (x : float) : Prop := x <> S754_nan.

Lemma fle_key (a b : float) :
  not_nan a -> not_nan b -> fle a b <-> lex3 (fkey a) (fkey b) <> Gt.
Proof.
  intros Ha Hb. unfold fle, SFleb. rewrite SFcompare_key by assumption.
  destruct (lex3 (fkey a) (fkey b)); split; congruence.
Qed.

Lemma flt_key (a b : float) :
  not_nan a -> not_nan b -> flt a b <-> lex3 (fkey a) (fkey b) = Lt.
Proof.
  intros Ha Hb. unfold flt, SFltb. rewrite SFcompare_key by assumption.
  destruct (lex3 (fkey a) (fkey b)); split; congruence.
Qed.

Lemma fle_refl (a : float) : not_nan a -> fle a a.
Proof. intro Ha. apply fle_key; [exact Ha|exact Ha|]. rewrite lex3_refl. discriminate. Qed.

Lemma flt_fle (a b : float) : not_nan a -> not_nan b -> flt a b -> fle a b.
Proof. intros Ha Hb H. apply fle_key; [exact Ha|exact Hb|]. apply flt_key in H; congruence. Qed.

Lemma not_flt_fle (a b : float) : not_nan a -> not_nan b -> SFltb a b = false -> fle b a.
Proof.
  intros Ha Hb H. apply fle_key; [exact Hb|exact Ha|]. rewrite lex3_antisym.
  assert (Hn : lex3 (fkey a) (fkey b) <> Lt) by (intro E; apply flt_key in E; congruence).
  destruct (lex3 (fkey a) (fkey b)); simpl; congruence.
Qed.

Lemma flt_trans (a b c : float) :
  not_nan a -> not_nan b -> not_nan c -> flt a b -> flt b c -> flt a c.
Proof.
  intros Ha Hb Hc H1 H2. apply flt_key in H1, H2; try assumption.
  apply flt_key; [exact Ha|exact Hc|]. eapply lex3_lt_trans; eauto.
Qed.

Lemma fle_flt_trans (a b c : float) :
  not_nan a -> not_nan b -> not_nan c -> fle a b -> flt b c -> flt a c.
Proof.
  intros Ha Hb Hc H1 H2. apply fle_key in H1; try assumption. apply flt_key in H2; try assumption.
  apply flt_key; [exact Ha|exact Hc|]. eapply lex3_le_lt; eauto.
Qed.

Lemma fle_trans (a b c : float) :
  not_nan a -> not_nan b -> not_nan c -> fle a b -> fle b c -> fle a c.
Proof.
  intros Ha Hb Hc H1 H2. apply fle_key in H1, H2; try assumption.
  apply fle_key; [exact Ha|exact Hc|]. eapply lex3_le_trans; eauto.
Qed.

(** *** Quotients of integers are never NaN *)

Lemma iter_pos_inv {A} (P : A -> Prop) (f : A -> A) :
  (forall x, P x -> P (f x)) -> forall n x, P x -> P (iter_pos f n x).
Proof.
  intros Hf n. induction n as [n IH|n IH|]; intros x Hx; simpl; auto.
Qed.

Lemma shr_1_nonneg (mrs : shr_record) : (0 <= shr_m mrs)%Z -> (0 <= shr_m (shr_1 mrs))%Z.
Proof. destruct mrs as [m r s]; simpl. destruct m as [|[p|p|]|p]; simpl; lia. Qed.

Lemma shr_fexp_nonneg (m e : Z) (l : location) :
  (0 <= m)%Z -> (0 <= shr_m (fst (shr_fexp prec emax m e l)))%Z.
Proof.
  intro Hm. unfold shr_fexp, shr.
  assert (H0 : (0 <= shr_m (shr_record_of_loc m l))%Z) by (destruct l as [|[]]; exact Hm).
  destruct (fexp prec emax (Zdigits2 m + e) - e)%Z; simpl; auto.
  apply iter_pos_inv; [apply shr_1_nonneg|exact H0].
Qed.

Lemma round_aux_not_nan (s : bool) (m e : Z) (l : location) :
  (0 <= m)%Z -> binary_round_aux prec emax s m e l <> S754_nan.
Proof.
  intro Hm. unfold binary_round_aux.
  pose proof (shr_fexp_nonneg m e l Hm) as H1.
  destruct (shr_fexp prec emax m e l) as [mrs' e'] eqn:E1. simpl in H1.
  assert (H2 : (0 <= round_nearest_even (shr_m mrs') (loc_of_shr_record mrs'))%Z).
  { unfold round_nearest_even. destruct (loc_of_shr_record mrs') as [|[]];
      try destruct (Z.even _); lia. }
  pose proof (shr_fexp_nonneg _ e' loc_Exact H2) as H3.
  destruct (shr_fexp prec emax _ e' loc_Exact) as [mrs'' e''] eqn:E2. simpl in H3.
  destruct (shr_m mrs'') as [|p|p]; [discriminate| |lia].
  destruct (e'' <=? emax - prec)%Z; discriminate.
Qed.

Lemma div_core_nonneg (m1 e1 m2 e2 : Z) :
  (0 <= m1)%Z -> (0 < m2)%Z -> (0 <= fst (fst (SFdiv_core_binary prec emax m1 e1 m2 e2)))%Z.
Proof.
  intros H1 H2. unfold SFdiv_core_binary.
  set (s := (_ - _ - _)%Z).
  assert (Hm : (0 <= match s with Zpos _ => Z.shiftl m1 s | Z0 => m1 | Zneg _ => 0 end)%Z).
  { destruct s; [exact H1|apply Z.shiftl_nonneg; exact H1|lia]. }
  revert Hm. generalize (match s with Zpos _ => Z.shiftl m1 s | Z0 => m1 | Zneg _ => 0%Z end).
  intros m' Hm. pose proof (Z.div_pos m' m2 Hm H2) as Hq. unfold Z.div in Hq.
  destruct (Z.div_eucl m' m2) as [q r]. simpl in *. exact Hq.
Qed.

Lemma div_finite_not_nan (sx sy : bool) (mx my : positive) (ex ey : Z) :
  div (S754_finite sx mx ex) (S754_finite sy my ey) <> S754_nan.
Proof.
  unfold div, SFdiv.
  pose proof (div_core_nonneg (Zpos mx) ex (Zpos my) ey ltac:(lia) ltac:(lia)) as Hn.
  destruct (SFdiv_core_binary prec emax (Zpos mx) ex (Zpos my) ey) as [[mz ez] lz].
  simpl in Hn. apply round_aux_not_nan. exact Hn.
Qed.

Lemma div_exact_not_nan (a b : Z) : b <> 0%Z -> not_nan (div (exact_Z a) (exact_Z b)).
Proof.
  intro Hb. destruct b as [|pb|pb]; [contradiction| |]; destruct a as [|pa|pa];
    try discriminate; apply div_finite_not_nan.
Qed.

Lemma favg_not_nan (g : list Z) : g <> [] -> not_nan (favg g).
Proof. intro H. apply div_exact_not_nan. destruct g; [contradiction|simpl; lia]. Qed.

(** *** Running the report *)

Lemma fold_left_Zadd (l : list Z) (a : Z) :
  fold_left Z.add l a = (a + fold_right Z.add 0 l)%Z.
Proof.
  revert a; induction l as [|x l IH]; intro a; simpl; [lia|]. rewrite IH. lia.
Qed.

Lemma sum_Z_spec (l : list Z) : sum_Z l = fold_right Z.add 0%Z l.
Proof. unfold sum_Z. rewrite fold_left_Zadd. lia. Qed.

Lemma student_avg_nil (s : Student) (st : St) :
  grades s = [] -> student_avg s st = (inl ZeroDivisionError, st).
Proof. intro H. unfold student_avg, int_truediv. rewrite H. reflexivity. Qed.

Lemma student_avg_some (s : Student) (st : St) :
  grades s <> [] -> avg_overflows s = false -> student_avg s st = (inr (favg (grades s)), st).
Proof.
  intros H Ho. unfold avg_overflows, has_grades in Ho.
  unfold student_avg, int_truediv, favg. rewrite sum_Z_spec.
  destruct (grades s) as [|g gs]; [contradiction|]. simpl in Ho |- *. rewrite Ho.
  reflexivity.
Qed.

Lemma student_avg_overflow (s : Student) (st : St) :
  avg_overflows s = true -> student_avg s st = (inl OverflowError, st).
Proof.
  intro Ho. unfold avg_overflows, has_grades in Ho.
  unfold student_avg, int_truediv. rewrite sum_Z_spec.
  destruct (grades s) as [|g gs]; [discriminate|]. simpl in Ho |- *. rewrite Ho.
  reflexivity.
Qed.

Lemma report_loop_spec (l : registry) (acc : list float) (st : St) :
  no_overflow l ->
  report_loop l acc st
  = (inr (acc ++ defined_averages l),
     mkSt (students st) (stdin st) (stdout st ++ map report_line l)).
Proof.
  intro Hno. revert acc st; induction Hno as [|s l Hs Hl IH]; intros acc st; simpl.
  - rewrite !app_nil_r. destruct st; reflexivity.
  - unfold catch, bind at 1. unfold bind at 1.
    unfold report_line at 1, defined_averages. simpl. unfold has_grades at 1.
    destruct (grades s) as [|g gs] eqn:G.
    + rewrite student_avg_nil by exact G. simpl.
      unfold bind, print. rewrite IH. simpl. rewrite <- app_assoc. reflexivity.
    + rewrite student_avg_some by (congruence || exact Hs). rewrite G.
      unfold bind, ret, print. rewrite IH. simpl.
      rewrite <- !app_assoc, G. reflexivity.
Qed.

Lemma report_loop_overflow (l : registry) (acc : list float) (st : St) :
  Exists (fun s => avg_overflows s = true) l -> fst (report_loop l acc st) = inl OverflowError.
Proof.
  intro Hex. revert acc st; induction l as [|s l IH]; intros acc st; [inversion Hex|].
  simpl. unfold catch, bind at 1. unfold bind at 1.
  destruct (avg_overflows s) eqn:O.
  - rewrite student_avg_overflow by exact O. reflexivity.
  - assert (Hl : Exists (fun s => avg_overflows s = true) l)
      by (inversion Hex; [congruence|assumption]).
    destruct (grades s) as [|g gs] eqn:G.
    + rewrite student_avg_nil by exact G. simpl. unfold bind, print. apply IH, Hl.
    + rewrite student_avg_some by (congruence || exact O).
      unfold bind, ret, print. apply IH, Hl.
Qed.

(** [max] on a non-NaN list: the first item is kept unless a strictly
    greater one comes; the result is the first item that is maximal. *)
Lemma max_loop_first {A} (key : A -> M float) (f : A -> float) (l : list A) (b : A) :
  (forall x st, In x l -> key x st = (inr (f x), st)) ->
  Forall (fun x => not_nan (f x)) l -> not_nan (f b) ->
  exists t, (forall st, max_loop key l b (f b) st = (inr t, st))
    /\ ((t = b /\ Forall (fun x => fle (f x) (f b)) l)
        \/ (flt (f b) (f t)
            /\ exists pre post, l = pre ++ t :: post
                 /\ Forall (fun x => flt (f x) (f t)) pre
                 /\ Forall (fun x => fle (f x) (f t)) post)).
Proof.
  revert b; induction l as [|x l IH]; intros b Hk Hn Hb.
  - exists b. split; [reflexivity|]. left. split; [reflexivity|constructor].
  - inversion Hn as [|? ? Hx Hl]; subst.
    assert (Hk' : forall y st, In y l -> key y st = (inr (f y), st))
      by (intros y st Hy; apply Hk; right; exact Hy).
    assert (Hstep : forall st, max_loop key (x :: l) b (f b) st
                    = (if flt_b (f b) (f x) then max_loop key l x (f x)
                       else max_loop key l b (f b)) st).
    { intro st. simpl. unfold bind. rewrite Hk by (left; reflexivity). reflexivity. }
    destruct (flt_b (f b) (f x)) eqn:E.
    + destruct (IH x Hk' Hl Hx)
        as (t & Ht & [[-> Hall]|(Hxt & pre & post & -> & Hpre & Hpost)]).
      * exists x. split; [intro st; rewrite Hstep; apply Ht|].
        right. split; [exact E|].
        exists [], l. split; [reflexivity|]. split; [constructor|exact Hall].
      * assert (Htn : not_nan (f t)).
        { rewrite Forall_forall in Hl. apply Hl. apply in_or_app. right. left. reflexivity. }
        exists t. split; [intro st; rewrite Hstep; apply Ht|]. right.
        split; [eapply flt_trans; [exact Hb|exact Hx|exact Htn|exact E|exact Hxt]|].
        exists (x :: pre), post. split; [reflexivity|]. split; [|exact Hpost].
        constructor; [exact Hxt|exact Hpre].
    + pose proof (not_flt_fle _ _ Hb Hx E) as Exb.
      destruct (IH b Hk' Hl Hb)
        as (t & Ht & [[-> Hall]|(Hbt & pre & post & -> & Hpre & Hpost)]).
      * exists b. split; [intro st; rewrite Hstep; apply Ht|].
        left. split; [reflexivity|]. constructor; [exact Exb|exact Hall].
      * assert (Htn : not_nan (f t)).
        { rewrite Forall_forall in Hl. apply Hl. apply in_or_app. right. left. reflexivity. }
        exists t. split; [intro st; rewrite Hstep; apply Ht|]. right. split; [exact Hbt|].
        exists (x :: pre), post. split; [reflexivity|]. split; [|exact Hpost].
        constructor; [eapply fle_flt_trans; [exact Hx|exact Hb|exact Htn|exact Exb|exact Hbt]|exact Hpre].
Qed.

(** The same scan over the keys themselves. *)
Lemma max_loop_map {A} (key : A -> M float) (f : A -> float) (l : list A) (b : A) (bv : float) :
  (forall x st, In x l -> key x st = (inr (f x), st)) ->
  forall st, max_loop ret (map f l) (f b) bv st
             = match max_loop key l b bv st with
               | (inr t, s) => (inr (f t), s)
               | (inl e, s) => (inl e, s)
               end.
Proof.
  revert b bv; induction l as [|x l IH]; intros b bv Hk st; [reflexivity|].
  assert (Hk' : forall y st, In y l -> key y st = (inr (f y), st))
    by (intros y s Hy; apply Hk; right; exact Hy).
  simpl. unfold bind. rewrite Hk by (left; reflexivity). unfold ret. cbv beta iota.
  destruct (flt_b bv (f x)); apply IH, Hk'.
Qed.

Lemma max_loop_overflow (l : registry) :
  Forall graded l -> Exists (fun s => avg_overflows s = true) l ->
  forall b bv st, fst (max_loop student_avg l b bv st) = inl OverflowError.
Proof.
  induction l as [|x l IH]; intros Hg Hex b bv st; [inversion Hex|].
  inversion Hg as [|? ? Hx Hl]; subst. simpl. unfold bind at 1.
  destruct (avg_overflows x) eqn:O.
  - rewrite student_avg_overflow by exact O. reflexivity.
  - rewrite student_avg_some by assumption.
    assert (Hl' : Exists (fun s => avg_overflows s = true) l)
      by (inversion Hex; [congruence|assumption]).
    destruct (flt_b bv (favg (grades x))); apply IH; assumption.
Qed.

Lemma Forall_flt_fle (l : list float) (m : float) :
  Forall not_nan l -> not_nan m -> Forall (fun a => flt a m) l -> Forall (fun a => fle a m) l.
Proof.
  intros Hn Hm H. induction H as [|x l Hx Hl IH]; constructor.
  - apply flt_fle; [inversion Hn; assumption|exact Hm|exact Hx].
  - apply IH. inversion Hn; assumption.
Qed.

(** [max] of a non-empty list of non-NaN floats: one of them, no smaller
    than any; [min] dually. *)
Lemma py_max_spec (l : list float) :
  l <> [] -> Forall not_nan l ->
  exists m, (forall st, py_max l st = (inr m, st)) /\ In m l /\ Forall (fun a => fle a m) l.
Proof.
  destruct l as [|x l]; [contradiction|]. intros _ Hn. inversion Hn as [|? ? Hx Hl]; subst.
  destruct (max_loop_first ret (fun a => a) l x (fun y st _ => eq_refl) Hl Hx)
    as (t & Ht & [[-> Hall]|(Hxt & pre & post & -> & Hpre & Hpost)]).
  - exists x. split; [intro st; exact (Ht st)|]. split; [left; reflexivity|].
    constructor; [apply fle_refl, Hx|exact Hall].
  - assert (Htn : not_nan t).
    { rewrite Forall_forall in Hl. apply Hl. apply in_or_app. right. left. reflexivity. }
    exists t. split; [intro st; exact (Ht st)|].
    split; [right; apply in_or_app; right; left; reflexivity|].
    constructor; [apply flt_fle; assumption|].
    apply Forall_app in Hl. destruct Hl as [Hlp _].
    apply Forall_app. split; [apply Forall_flt_fle; assumption|].
    constructor; [apply fle_refl, Htn|exact Hpost].
Qed.

Lemma min_loop_spec (l : list float) (b : float) (st : St) :
  Forall not_nan l -> not_nan b ->
  exists m, min_loop l b st = (inr m, st) /\ (m = b \/ In m l) /\ not_nan m
            /\ fle m b /\ Forall (fun a => fle m a) l.
Proof.
  revert b; induction l as [|x l IH]; intros b Hn Hb; simpl.
  - exists b. split; [reflexivity|]. split; [left; reflexivity|]. split; [exact Hb|].
    split; [apply fle_refl, Hb|constructor].
  - inversion Hn as [|? ? Hx Hl]; subst. unfold flt_b.
    destruct (SFltb x b) eqn:E.
    + destruct (IH x Hl Hx) as (m & Hm & Hin & Hmn & Hmx & Hall).
      exists m. split; [exact Hm|]. split; [destruct Hin as [->|]; auto|].
      split; [exact Hmn|]. split.
      * apply flt_fle; [exact Hmn|exact Hb|].
        eapply fle_flt_trans; [exact Hmn|exact Hx|exact Hb|exact Hmx|exact E].
      * constructor; [exact Hmx|exact Hall].
    + pose proof (not_flt_fle _ _ Hx Hb E) as Ebx.
      destruct (IH b Hl Hb) as (m & Hm & Hin & Hmn & Hmb & Hall).
      exists m. split; [exact Hm|]. split; [destruct Hin; auto|].
      split; [exact Hmn|]. split; [exact Hmb|].
      constructor; [eapply fle_trans; [exact Hmn|exact Hb|exact Hx|exact Hmb|exact Ebx]|exact Hall].
Qed.

Lemma py_min_spec (l : list float) (st : St) :
  l <> [] -> Forall not_nan l ->
  exists m, py_min l st = (inr m, st) /\ In m l /\ Forall (fun a => fle m a) l.
Proof.
  destruct l as [|x l]; [contradiction|]. intros _ Hn. inversion Hn as [|? ? Hx Hl]; subst.
  unfold py_min.
  destruct (min_loop_spec l x st Hl Hx) as (m & Hm & Hin & _ & Hmx & Hall).
  exists m. split; [exact Hm|]. split; [destruct Hin as [<-|]; [left|right]; auto|].
  constructor; assumption.
Qed.

Lemma has_grades_graded (s : Student) : has_grades s = true <-> graded s.
Proof.
  unfold has_grades, graded. destruct (grades s); split; congruence.
Qed.

Lemma defined_averages_not_nan (r : registry) : Forall not_nan (defined_averages r).
Proof.
  unfold defined_averages. rewrite Forall_forall. intros a Ha.
  apply in_map_iff in Ha. destruct Ha as (s & <- & Hs).
  apply filter_In in Hs. apply favg_not_nan, has_grades_graded, Hs.
Qed.

Lemma show_report_no_students (st : St) :
  students st = [] -> show_report st = (inr tt, emit MsgNoStudentsReport st).
Proof. destruct st as [r inp out]; simpl; intros ->. reflexivity. Qed.

Lemma show_report_no_averages (st : St) :
  students st <> [] -> no_overflow (students st) -> defined_averages (students st) = [] ->
  show_report st
  = (inr tt, mkSt (students st) (stdin st)
               (stdout st ++ MsgReportHeader :: map report_line (students st)
                          ++ [MsgNoGradesYet; MsgRule])).
Proof.
  destruct st as [r inp out]; simpl. intros Hne Hno D.
  unfold show_report. destruct r as [|s0 r']; [contradiction|].
  unfold bind at 1, get_students. unfold bind at 1, print, emit. cbn -[report_loop].
  unfold bind at 1. rewrite report_loop_spec by exact Hno. rewrite D.
  cbn -[report_loop map].
  unfold bind, print, emit. simpl. rewrite <- !app_assoc. reflexivity.
Qed.

Lemma show_report_stats (st : St) (a : float) (l : list float) :
  students st <> [] -> no_overflow (students st) -> defined_averages (students st) = a :: l ->
  exists mx mn,
    show_report st
    = (inr tt, mkSt (students st) (stdin st)
                 (stdout st ++ MsgReportHeader :: map report_line (students st)
                   ++ [MsgRule; MsgMaxAvg mx; MsgMinAvg mn; MsgOverallAvg (float_mean (a :: l));
                       MsgRule]))
    /\ (forall s, py_max (a :: l) s = (inr mx, s))
    /\ In mx (a :: l) /\ Forall (fun x => fle x mx) (a :: l)
    /\ In mn (a :: l) /\ Forall (fun x => fle mn x) (a :: l).
Proof.
  destruct st as [r inp out]; simpl. intros Hne Hno D.
  pose proof (defined_averages_not_nan r) as Hn. rewrite D in Hn.
  destruct (py_max_spec (a :: l) ltac:(discriminate) Hn) as (mx & Hmx & Hinx & Hallx).
  unfold show_report. destruct r as [|s0 r']; [contradiction|].
  unfold bind at 1, get_students. unfold bind at 1, print, emit. cbn -[report_loop].
  unfold bind at 1. rewrite report_loop_spec by exact Hno. rewrite D.
  cbn -[report_loop map py_max py_min float_div_len py_fsum float_mean div of_Z].
  match goal with |- exists _ _, bind (py_max _) _ ?S = _ /\ _ =>
    destruct (py_min_spec (a :: l) S ltac:(discriminate) Hn) as (mn & Hmn & Hinn & Halln) end.
  exists mx, mn. split; [|tauto].
  unfold bind at 1. rewrite Hmx. unfold bind at 1. rewrite Hmn.
  unfold float_div_len. simpl. unfold bind, print, emit. simpl.
  rewrite <- !app_assoc. reflexivity.
Qed.

Lemma show_report_overflow (st : St) :
  Exists (fun s => avg_overflows s = true) (students st) ->
  fst (show_report st) = inl OverflowError.
Proof.
  destruct st as [r inp out]; simpl. intro Hex.
  unfold show_report. destruct r as [|s0 r']; [inversion Hex|].
  unfold bind at 1, get_students. unfold bind at 1, print, emit. cbn -[report_loop].
  unfold bind at 1.
  pose proof (report_loop_overflow (s0 :: r') [] (mkSt (s0 :: r') inp (out ++ [MsgReportHeader])) Hex)
    as Ho.
  destruct (report_loop (s0 :: r') [] _) as [[e|avgs] s']; simpl in Ho |- *; congruence.
Qed.

Lemma defined_averages_nil (r : registry) :
  defined_averages r = [] <-> Forall (fun s => grades s = []) r.
Proof.
  unfold defined_averages. induction r as [|s r IH]; simpl.
  - split; [constructor|reflexivity].
  - unfold has_grades at 1. destruct (grades s) eqn:G; simpl.
    + rewrite IH. split; [intro H; constructor; assumption|].
      intro H; inversion H; assumption.
    + split; [discriminate|]. intro H; inversion H; congruence.
Qed.

Lemma no_grades_no_overflow (r : registry) :
  Forall (fun s => grades s = []) r -> no_overflow r.
Proof.
  intro H. eapply Forall_impl; [|exact H]. intros s Hs.
  unfold avg_overflows, has_grades. rewrite Hs. reflexivity.
Qed.

Lemma overflow_bound_gt : (100 < overflow_bound)%Z.
Proof. unfold overflow_bound. vm_compute. reflexivity. Qed.

Lemma sum_in_range (g : list Z) :
  Forall (fun x => (0 <= x <= 100)%Z) g ->
  (0 <= fold_right Z.add 0 g <= 100 * Z.of_nat (length g))%Z.
Proof. induction 1 as [|x g Hx _ IH]; cbn [fold_right length]; lia. Qed.

Lemma in_range_no_overflow (r : registry) : grades_in_range r -> no_overflow r.
Proof.
  unfold grades_in_range, no_overflow. intro H. eapply Forall_impl; [|exact H].
  intros s Hs. unfold avg_overflows.
  destruct (has_grades s) eqn:Hg; [|reflexivity]. cbn [andb].
  assert (Hn : (1 <= Z.of_nat (length (grades s)))%Z).
  { unfold has_grades in Hg. destruct (grades s); [discriminate|cbn [length]; lia]. }
  pose proof (sum_in_range _ Hs) as Hb. pose proof overflow_bound_gt as Hgt.
  unfold int_div_overflows. apply Z.leb_gt. rewrite !Z.abs_eq by lia. nia.
Qed.

(** C6 (counterexample): the report does divide by the length of an empty
    grade list: the division at line 119 raises [ZeroDivisionError], which
    is caught; and the report is not total on every registry: an average
    beyond the float range raises [OverflowError], which is not caught. *)
Lemma show_report_divides_by_empty :
  student_avg (mkStudent "Ann" []) (mkSt [mkStudent "Ann" []] [] [])
  = (inl ZeroDivisionError, mkSt [mkStudent "Ann" []] [] [])
  /\ show_report (mkSt [mkStudent "Ann" []] [] [])
     = (inr tt, mkSt [mkStudent "Ann" []] [] [MsgReportHeader; MsgAvgNA "Ann"; MsgNoGradesYet; MsgRule])
  /\ fst (show_report (mkSt [mkStudent "Big" [(10 ^ 309)%Z]] [] [])) = inl OverflowError.
Proof. split; [reflexivity|split; [reflexivity|vm_compute; reflexivity]]. Qed.

(** C6 (amended): [show_report] evaluates [sum(grades) / len(grades)] also
    for a student without grades and catches the [ZeroDivisionError]; such
    a student is reported as N/A (a line that carries no number); when no
    student has an average no statistics are printed; and the report
    returns normally whenever no student's average overflows a float,
    which holds when every grade is in [0, 100]. *)
Theorem show_report_total (st : St) :
  (no_overflow (students st) ->
     exists out, show_report st = (inr tt, mkSt (students st) (stdin st) (stdout st ++ out)))
  /\ (grades_in_range (students st) -> no_overflow (students st))
  /\ (students st = [] -> show_report st = (inr tt, emit MsgNoStudentsReport st))
  /\ (students st <> [] -> no_overflow (students st) ->
      exists tail,
        show_report st
        = (inr tt, mkSt (students st) (stdin st)
                     (stdout st ++ MsgReportHeader :: map report_line (students st) ++ tail)))
  /\ (students st <> [] -> Forall (fun s => grades s = []) (students st) ->
      show_report st
      = (inr tt, mkSt (students st) (stdin st)
                   (stdout st ++ MsgReportHeader :: map report_line (students st)
                              ++ [MsgNoGradesYet; MsgRule])))
  /\ (forall s, grades s = [] -> report_line s = MsgAvgNA (name s)).
Proof.
  assert (Hne : students st <> [] -> no_overflow (students st) ->
      exists tail,
        show_report st
        = (inr tt, mkSt (students st) (stdin st)
                     (stdout st ++ MsgReportHeader :: map report_line (students st) ++ tail))).
  { intros Hne Hno. destruct (defined_averages (students st)) as [|a l] eqn:D.
    - exists [MsgNoGradesYet; MsgRule]. apply show_report_no_averages; assumption.
    - destruct (show_report_stats st a l Hne Hno D) as (mx & mn & Heq & _).
      eexists. exact Heq. }
  split; [|split; [apply in_range_no_overflow|split; [apply show_report_no_students|]]].
  - intro Hno. destruct (students st) eqn:E.
    + exists [MsgNoStudentsReport]. rewrite show_report_no_students by exact E.
      unfold emit. rewrite E. reflexivity.
    + destruct Hne as (tail & Heq); [discriminate|exact Hno|].
      eexists. rewrite Heq. reflexivity.
  - split; [exact Hne|split].
    + intros H0 Hall. apply show_report_no_averages; [exact H0| |].
      * apply no_grades_no_overflow, Hall.
      * apply defined_averages_nil, Hall.
    + intros s Hs. unfold report_line. rewrite Hs. reflexivity.
Qed.

Lemma show_report_total_witness :
  show_report (mkSt [mkStudent "Ann" []; mkStudent "Bob" []] [] [])
  = (inr tt, mkSt [mkStudent "Ann" []; mkStudent "Bob" []] []
               [MsgReportHeader; MsgAvgNA "Ann"; MsgAvgNA "Bob"; MsgNoGradesYet; MsgRule]).
Proof.
  pose proof (proj1 (proj2 (proj2 (proj2 (proj2 (show_report_total
              (mkSt [mkStudent "Ann" []; mkStudent "Bob" []] [] []))))))) as H.
  rewrite H; [reflexivity|discriminate|repeat constructor].
Defined.

(** Three students whose average is 1/10. *)
Definition tenths : registry :=
  [mkStudent "A" [1; 0; 0; 0; 0; 0; 0; 0; 0; 0]%Z;
   mkStudent "B" [1; 0; 0; 0; 0; 0; 0; 0; 0; 0]%Z;
   mkStudent "C" [1; 0; 0; 0; 0; 0; 0; 0; 0; 0]%Z].

(** C1 (counterexample): every student's average is the float [a]
    nearest to 0.1, so the mean of the per-student averages is [a]
    itself; the printed overall average is the next float above,
    0.10000000000000002: [sum] adds in floats and the division rounds. *)
Lemma show_report_overall_rounding :
  exists a ov,
    show_report (mkSt tenths [] [])
    = (inr tt, mkSt tenths []
                 [MsgReportHeader; MsgAvg "A" a; MsgAvg "B" a; MsgAvg "C" a;
                  MsgRule; MsgMaxAvg a; MsgMinAvg a; MsgOverallAvg ov; MsgRule])
    /\ defined_averages tenths = [a; a; a]
    /\ ~ (SF2Q ov == spec_mean (map SF2Q (defined_averages tenths))).
Proof.
  exists (S754_finite false 7205759403792794 (-56)), (S754_finite false 7205759403792795 (-56)).
  split; [vm_compute; reflexivity|split; [vm_compute; reflexivity|vm_compute; discriminate]].
Qed.

(** C1 (amended): when some student has grades and no average overflows,
    the report's overall average is [sum(averages) / len(averages)]
    computed in binary64 (CPython's compensated [sum], then a correctly
    rounded division) over the float averages of exactly the students with
    grades, in registry order (not the pooled mean of all grades); its
    maximum and minimum are the largest and smallest of those averages
    under Python's float comparison. *)
Theorem show_report_aggregates (st : St) :
  Exists (fun s => grades s <> []) (students st) -> no_overflow (students st) ->
  exists mx mn,
    show_report st
    = (inr tt, mkSt (students st) (stdin st)
                 (stdout st ++ MsgReportHeader :: map report_line (students st)
                   ++ [MsgRule; MsgMaxAvg mx; MsgMinAvg mn;
                       MsgOverallAvg (float_mean (defined_averages (students st))); MsgRule]))
    /\ In mx (defined_averages (students st))
    /\ Forall (fun a => fle a mx) (defined_averages (students st))
    /\ In mn (defined_averages (students st))
    /\ Forall (fun a => fle mn a) (defined_averages (students st)).
Proof.
  intros Hex Hno.
  assert (Hne : students st <> []) by (intro E; rewrite E in Hex; inversion Hex).
  destruct (defined_averages (students st)) as [|a l] eqn:D.
  - exfalso. apply defined_averages_nil in D. rewrite Forall_forall in D.
    rewrite Exists_exists in Hex. destruct Hex as (s & Hs & Hg). exact (Hg (D s Hs)).
  - destruct (show_report_stats st a l Hne Hno D) as (mx & mn & Heq & _ & H1 & H2 & H3 & H4).
    exists mx, mn. split; [exact Heq|]. tauto.
Qed.

Lemma show_report_aggregates_witness :
  exists mx mn,
    show_report (mkSt [mkStudent "A" [100%Z]; mkStudent "B" [0%Z; 0%Z; 0%Z; 100%Z]] [] [])
    = (inr tt, mkSt [mkStudent "A" [100%Z]; mkStudent "B" [0%Z; 0%Z; 0%Z; 100%Z]] []
                 [MsgReportHeader; MsgAvg "A" (favg [100%Z]);
                  MsgAvg "B" (favg [0%Z; 0%Z; 0%Z; 100%Z]);
                  MsgRule; MsgMaxAvg mx; MsgMinAvg mn;
                  MsgOverallAvg (float_mean [favg [100%Z]; favg [0%Z; 0%Z; 0%Z; 100%Z]]); MsgRule])
    /\ SF2Q (float_mean [favg [100%Z]; favg [0%Z; 0%Z; 0%Z; 100%Z]]) == 125 # 2
    /\ ~ (SF2Q (float_mean [favg [100%Z]; favg [0%Z; 0%Z; 0%Z; 100%Z]])
          == pooled_mean [mkStudent "A" [100%Z]; mkStudent "B" [0%Z; 0%Z; 0%Z; 100%Z]]).
Proof.
  destruct (show_report_aggregates
              (mkSt [mkStudent "A" [100%Z]; mkStudent "B" [0%Z; 0%Z; 0%Z; 100%Z]] [] [])
              ltac:(constructor; discriminate) ltac:(repeat constructor))
    as (mx & mn & Heq & _).
  exists mx, mn. split; [exact Heq|]. split.
  - vm_compute. reflexivity.
  - vm_compute. discriminate.
Defined.

(* ------------------------------------------------------------------ *)
(** ** The top performer *)


Lemma py_max_key_first (l : registry) :
  l <> [] -> Forall graded l -> no_overflow l ->
  exists pre t post, (forall st, py_max_key student_avg l st = (inr t, st))
    /\ l = pre ++ t :: post
    /\ Forall (fun x => flt (favg (grades x)) (favg (grades t))) pre
    /\ Forall (fun x => fle (favg (grades x)) (favg (grades t))) post.
Proof.
  destruct l as [|b l]; [contradiction|]. intros _ Hg Ho.
  inversion Hg as [|? ? Hb Hl]; subst. inversion Ho as [|? ? Hob Hol]; subst.
  assert (Hk : forall x st, In x l -> student_avg x st = (inr (favg (grades x)), st)).
  { intros x st Hx. rewrite Forall_forall in Hl, Hol.
    apply student_avg_some; [exact (Hl x Hx)|exact (Hol x Hx)]. }
  assert (Hn : Forall (fun x => not_nan (favg (grades x))) l).
  { rewrite Forall_forall in *. intros x Hx. apply favg_not_nan, Hl, Hx. }
  destruct (max_loop_first student_avg (fun x => favg (grades x)) l b Hk Hn (favg_not_nan _ Hb))
    as (t & Ht & [[-> Hall]|(Hbt & pre & post & -> & Hpre & Hpost)]).
  - exists [], b, l.
    split; [intro st; unfold py_max_key, bind at 1; rewrite student_avg_some by assumption; apply Ht|].
    split; [reflexivity|]. split; [constructor|exact Hall].
  - exists (b :: pre), t, post.
    split; [intro st; unfold py_max_key, bind at 1; rewrite student_avg_some by assumption; apply Ht|].
    split; [reflexivity|]. split; [constructor; assumption|exact Hpost].
Qed.




Lemma filter_graded (l : registry) : Forall graded (filter has_grades l).
Proof.
  rewrite Forall_forall. intros x Hx. apply filter_In in Hx.
  apply has_grades_graded. apply Hx.
Qed.

Lemma filter_nonempty (l : registry) : Exists graded l -> filter has_grades l <> [].
Proof.
  intro Hex. rewrite Exists_exists in Hex. destruct Hex as (x & Hx & Hg).
  intro E. assert (Hin : In x (filter has_grades l)).
  { apply filter_In. split; [exact Hx|apply has_grades_graded; exact Hg]. }
  rewrite E in Hin. inversion Hin.
Qed.

Lemma filter_no_overflow (l : registry) : no_overflow l -> no_overflow (filter has_grades l).
Proof.
  unfold no_overflow. rewrite !Forall_forall. intros H x Hx. apply filter_In in Hx. apply H, Hx.
Qed.

Lemma Exists_overflow_filter (l : registry) :
  Exists (fun s => avg_overflows s = true) l ->
  Exists (fun s => avg_overflows s = true) (filter has_grades l).
Proof.
  induction 1 as [x l Hx|x l _ IH]; simpl.
  - assert (Hg : has_grades x = true)
      by (unfold avg_overflows in Hx; destruct (has_grades x); [reflexivity|discriminate]).
    rewrite Hg. constructor. exact Hx.
  - destruct (has_grades x); [constructor 2|]; exact IH.
Qed.

Lemma no_overflow_dec (l : registry) :
  no_overflow l \/ Exists (fun s => avg_overflows s = true) l.
Proof.
  induction l as [|x l [IH|IH]].
  - left. constructor.
  - destruct (avg_overflows x) eqn:E; [right; constructor; exact E|left; constructor; assumption].
  - right. constructor 2. exact IH.
Qed.




(* ------------------------------------------------------------------ *)
(** ** Read-only computations *)

(** [m] never changes the [students] list, whatever it does to the
    input and the output or whatever it raises. *)
Definition read_only {A} (m : M A) : Prop :=
  forall st, students (snd (m st)) = students st.

Create HintDb readonly.

Lemma ro_ret {A} (a : A) : read_only (ret a).
Proof. intro st. reflexivity. Qed.

Lemma ro_raise {A} (e : exn) : read_only (@raise A e).
Proof. intro st. reflexivity. Qed.

Lemma ro_print (m : msg) : read_only (print m).
Proof. intro st. reflexivity. Qed.

Lemma ro_input : read_only input.
Proof. intro st. unfold input. destruct (stdin st) as [|[| |] ]; reflexivity. Qed.

Lemma ro_get_students : read_only get_students.
Proof. intro st. reflexivity. Qed.

Lemma ro_bind {A B} (m : M A) (k : A -> M B) :
  read_only m -> (forall a, read_only (k a)) -> read_only (bind m k).
Proof.
  intros Hm Hk st. unfold bind. specialize (Hm st).
  destruct (m st) as [[e|a] st']; simpl in *; [exact Hm|]. rewrite Hk. exact Hm.
Qed.

Lemma ro_catch {A} (m : M A) (e : exn) (h : M A) :
  read_only m -> read_only h -> read_only (catch m e h).
Proof.
  intros Hm Hh st. unfold catch. specialize (Hm st).
  destruct (m st) as [[e'|a] st']; simpl in *; [|exact Hm].
  destruct (exn_matches e e'); [rewrite Hh|]; exact Hm.
Qed.

Lemma ro_int_truediv (a b : Z) : read_only (int_truediv a b).
Proof.
  unfold int_truediv. destruct (b =? 0)%Z; [|destruct (int_div_overflows a b)];
    intro st; reflexivity.
Qed.

Lemma ro_float_div_len (x : float) (n : nat) : read_only (float_div_len x n).
Proof. unfold float_div_len. destruct (Nat.eqb n 0); intro st; reflexivity. Qed.

Lemma ro_student_avg (s : Student) : read_only (student_avg s).
Proof. apply ro_int_truediv. Qed.

#[local] Hint Resolve ro_ret ro_raise ro_print ro_input ro_get_students
  ro_int_truediv ro_float_div_len ro_student_avg : readonly.

Ltac ro_solve :=
  repeat match goal with
         | |- read_only (bind _ _) => apply ro_bind; [|intro]
         | |- read_only (catch _ _ _) => apply ro_catch
         | |- read_only (if ?b then _ else _) => destruct b
         | |- read_only (match ?x with _ => _ end) => destruct x
         | |- _ => solve [eauto with readonly]
         end.

Lemma ro_max_loop {A} (key : A -> M float) (l : list A) (b : A) (bv : float) :
  (forall x, read_only (key x)) -> read_only (max_loop key l b bv).
Proof.
  intro Hk. revert b bv; induction l as [|x l IH]; intros b bv; simpl; ro_solve.
Qed.

Lemma ro_min_loop (l : list float) (b : float) : read_only (min_loop l b).
Proof. revert b; induction l as [|x l IH]; intro b; simpl; ro_solve. Qed.

Lemma ro_py_max_key {A} (key : A -> M float) (l : list A) :
  (forall x, read_only (key x)) -> read_only (py_max_key key l).
Proof. intro Hk. unfold py_max_key. destruct l; ro_solve. apply ro_max_loop, Hk. Qed.

Lemma ro_py_min (l : list float) : read_only (py_min l).
Proof. unfold py_min. destruct l; ro_solve. apply ro_min_loop. Qed.

Lemma ro_report_loop (l : registry) (acc : list float) : read_only (report_loop l acc).
Proof. revert acc; induction l as [|s l IH]; intro acc; simpl; ro_solve. Qed.

#[local] Hint Resolve ro_py_min ro_report_loop : readonly.

Lemma ro_show_report : read_only show_report.
Proof.
  unfold show_report. ro_solve. apply ro_py_max_key. intro. apply ro_ret.
Qed.

Lemma ro_find_top_performer : read_only find_top_performer.
Proof.
  unfold find_top_performer. ro_solve. apply ro_py_max_key, ro_student_avg.
Qed.

(** C10: [show_report] and [find_top_performer] leave the registry
    exactly as it was: same records, names, grades and order. *)
Theorem report_and_top_read_only (st : St) :
  students (snd (show_report st)) = students st
  /\ students (snd (find_top_performer st)) = students st.
Proof. split; [apply ro_show_report|apply ro_find_top_performer]. Qed.

(* ------------------------------------------------------------------ *)
(** ** The registry invariant *)

Definition names_unique (r : registry) : Prop :=
  NoDup (map (fun s => normalized (name s)) r).

(** Registries the program can build from the empty one with any
    number of "add student" and "add grades" operations, on any input,
    whether or not the operation ends with an exception. *)
Inductive reachable : registry -> Prop :=
  | reach_nil : reachable []
  | reach_add (st : St) :
      reachable (students st) -> reachable (students (snd (add_new_student st)))
  | reach_grades (st : St) :
      reachable (students st) -> reachable (students (snd (add_grades_for_student st))).

Lemma map_update_nth {A B} (g : A -> B) (i : nat) (f : A -> A) (l : list A) :
  (forall x, g (f x) = g x) -> map g (update_nth i f l) = map g l.
Proof.
  intro Hg. revert i; induction l as [|x l IH]; intros [|i]; simpl;
    rewrite ?Hg, ?IH; reflexivity.
Qed.

Lemma Forall_update_nth {A} (P : A -> Prop) (i : nat) (f : A -> A) (l : list A) :
  (forall x, P x -> P (f x)) -> Forall P l -> Forall P (update_nth i f l).
Proof.
  intros Hf Hl. revert i; induction Hl as [|x l Hx Hl IH]; intros [|i]; simpl;
    constructor; auto.
Qed.

Lemma add_grades_for_student_effect (st : St) :
  students (snd (add_grades_for_student st)) = students st
  \/ exists i extra,
       students (snd (add_grades_for_student st)) = update_nth i (app_grades extra) (students st)
       /\ Forall (fun g => (0 <= g <= 100)%Z) extra.
Proof.
  destruct st as [r inp out].
  destruct r as [|s0 r']; [left; reflexivity|].
  destruct inp as [|[raw| |] rest]; [left; reflexivity| |left; reflexivity|left; reflexivity].
  destruct (find_student_at (s0 :: r') (strip raw)) as [[i s]|] eqn:F.
  - right.
    destruct (grade_loop_frame rest i
                (set_stdin rest (mkSt (s0 :: r') (Line raw :: rest) out)))
      as (extra & He & Hr).
    exists i, extra. split; [|exact Hr].
    unfold add_grades_for_student. unfold bind at 1, get_students.
    unfold bind at 1, input. simpl. rewrite F.
    unfold bind at 1, get_stdin. simpl. unfold bind at 1.
    destruct (grade_loop rest i _) as [[e|[]] st2] eqn:G; simpl in He |- *; exact He.
  - left. unfold add_grades_for_student. unfold bind at 1, get_students.
    unfold bind at 1, input. simpl. rewrite F. reflexivity.
Qed.

Lemma add_new_student_effect (st : St) :
  students (snd (add_new_student st)) = students st
  \/ exists raw,
       (forall s, In s (students st) -> lower (name s) <> normalized raw)
       /\ students (snd (add_new_student st)) = students st ++ [mkStudent (strip raw) []].
Proof.
  destruct (stdin st) as [|[raw| |] rest] eqn:Hin;
    [left; unfold add_new_student, bind at 1, input; rewrite Hin; reflexivity| |
     left; unfold add_new_student, bind at 1, input; rewrite Hin; reflexivity|].
  - destruct (add_new_student_cases st raw rest Hin) as (H1 & H2 & H3).
    destruct (strip raw) as [|c0 s1] eqn:Es.
    + left. rewrite H1 by reflexivity. reflexivity.
    + assert (Hne : strip raw <> EmptyString) by (rewrite Es; discriminate).
      rewrite <- Es in *.
      destruct (existsb (fun s => String.eqb (lower (name s)) (normalized raw)) (students st))
        eqn:Ex.
      * left. rewrite H2; [reflexivity|exact Hne|].
        apply existsb_exists in Ex. destruct Ex as (s & Hs & Heq).
        exists s. split; [exact Hs|apply String.eqb_eq; exact Heq].
      * right. exists raw.
        assert (Hall : forall s, In s (students st) -> lower (name s) <> normalized raw).
        { intros s Hs Heq. assert (Hc : existsb (fun s => String.eqb (lower (name s))
                                                   (normalized raw)) (students st) = true).
          { apply existsb_exists. exists s. split; [exact Hs|apply String.eqb_eq; exact Heq]. }
          congruence. }
        split; [exact Hall|]. rewrite H3; [reflexivity|exact Hne|exact Hall].
  - left. unfold add_new_student, bind at 1, input. rewrite Hin. reflexivity.
Qed.

Definition registry_inv (r : registry) : Prop :=
  grades_in_range r /\ names_unique r /\ names_trimmed r.

Lemma registry_inv_grades (r : registry) (i : nat) (extra : list Z) :
  Forall (fun g => (0 <= g <= 100)%Z) extra ->
  registry_inv r -> registry_inv (update_nth i (app_grades extra) r).
Proof.
  intros Hx (Hg & Hu & Ht). split; [|split].
  - apply Forall_update_nth; [|exact Hg].
    intros s Hs. unfold app_grades. simpl. apply Forall_app. split; assumption.
  - unfold names_unique. rewrite map_update_nth by reflexivity. exact Hu.
  - apply Forall_update_nth; [|exact Ht]. intros s Hs. exact Hs.
Qed.

Lemma registry_inv_add (r : registry) (raw : string) :
  (forall s, In s r -> lower (name s) <> normalized raw) ->
  registry_inv r -> registry_inv (r ++ [mkStudent (strip raw) []]).
Proof.
  intros Hfresh (Hg & Hu & Ht). split; [|split].
  - apply Forall_app. split; [exact Hg|]. repeat constructor.
  - unfold names_unique. rewrite map_app. simpl. apply NoDup_app.
    + exact Hu.
    + repeat constructor. intros [].
    + intros a Ha [Heq|[]].
      apply in_map_iff in Ha. destruct Ha as (s & <- & Hs).
      apply (Hfresh s Hs). unfold names_trimmed in Ht. rewrite Forall_forall in Ht.
      unfold normalized in *. rewrite strip_idem in Heq. rewrite <- (Ht s Hs). symmetry; exact Heq.
  - apply Forall_app. split; [exact Ht|]. constructor; [|constructor].
    simpl. apply strip_idem.
Qed.

Lemma reachable_registry_inv (r : registry) : reachable r -> registry_inv r.
Proof.
  induction 1 as [|st _ IH|st _ IH].
  - split; [constructor|split; constructor].
  - destruct (add_new_student_effect st) as [->|(raw & Hf & ->)]; [exact IH|].
    apply registry_inv_add; assumption.
  - destruct (add_grades_for_student_effect st) as [->|(i & extra & -> & Hx)]; [exact IH|].
    apply registry_inv_grades; assumption.
Qed.

(** C5: in every registry reachable from the empty one by adding students
    and grades, every grade lies in [0, 100] and no two records share a
    normalized (trimmed, lowercased) name. *)
Theorem reachable_invariant (r : registry) :
  reachable r -> grades_in_range r /\ names_unique r.
Proof. intro H. destruct (reachable_registry_inv r H) as (Hg & Hu & _). split; assumption. Qed.

Lemma reachable_invariant_witness :
  grades_in_range [mkStudent "Ann" [50%Z]] /\ names_unique [mkStudent "Ann" [50%Z]].
Proof.
  apply reachable_invariant.
  exact (reach_grades (mkSt [mkStudent "Ann" []] (map L ["ann"; "50"; "150"; "done"]%string) [])
           (reach_add (mkSt [] [L "Ann"] []) reach_nil)).
Defined.

(* ------------------------------------------------------------------ *)
(** ** The menu loop *)

Lemma main_iter_shape (st : St) (raw : string) (rest : list input_line) :
  stdin st = Line raw :: rest ->
  main_iter st
  = (match py_int (strip raw) with
     | None => fun st' => (inr Continue, emit MsgInvalidChoiceNumber st')
     | Some choice =>
         if (choice =? 1)%Z then add_new_student ;; ret Continue
         else if (choice =? 2)%Z then add_grades_for_student ;; ret Continue
         else if (choice =? 3)%Z then show_report ;; ret Continue
         else if (choice =? 4)%Z then find_top_performer ;; ret Continue
         else if (choice =? 5)%Z then print MsgExiting ;; ret Break
         else print MsgInvalidChoiceRange ;; ret Continue
     end) (mkSt (students st) rest (stdout st ++ [MsgMenu])).
Proof.
  intro Hin. destruct st as [r inp out]; simpl in Hin; subst inp.
  unfold main_iter, bind at 1, print at 1, emit. simpl.
  unfold bind at 1, input. simpl.
  unfold bind at 1, catch, int_. destruct (py_int (strip raw)); reflexivity.
Qed.

(** C9: on a menu line that is not an integer, or an integer outside
    1..5, one iteration of the loop reports an invalid choice, leaves the
    registry as it is and continues the loop; on a line reading 5 it
    says goodbye and the loop ends normally ([break], no exception). *)
Theorem main_iter_invalid_or_exit (st : St) (raw : string) (rest : list input_line) :
  stdin st = Line raw :: rest ->
  (py_int (strip raw) = None ->
     main_iter st
     = (inr Continue, mkSt (students st) rest (stdout st ++ [MsgMenu; MsgInvalidChoiceNumber]))
     /\ forall fuel, main_loop (S fuel) st
                     = main_loop fuel (mkSt (students st) rest
                                         (stdout st ++ [MsgMenu; MsgInvalidChoiceNumber])))
  /\ (forall c, py_int (strip raw) = Some c -> ~ (1 <= c <= 5)%Z ->
     main_iter st
     = (inr Continue, mkSt (students st) rest (stdout st ++ [MsgMenu; MsgInvalidChoiceRange]))
     /\ forall fuel, main_loop (S fuel) st
                     = main_loop fuel (mkSt (students st) rest
                                         (stdout st ++ [MsgMenu; MsgInvalidChoiceRange])))
  /\ (py_int (strip raw) = Some 5%Z ->
     forall fuel, main_loop (S fuel) st
                  = (inr true, mkSt (students st) rest (stdout st ++ [MsgMenu; MsgExiting]))).
Proof.
  intro Hin. pose proof (main_iter_shape st raw rest Hin) as Hs.
  split; [|split].
  - intro Hp. rewrite Hp in Hs.
    assert (H : main_iter st = (inr Continue, mkSt (students st) rest
                                  (stdout st ++ [MsgMenu; MsgInvalidChoiceNumber]))).
    { rewrite Hs. unfold emit. simpl. rewrite <- app_assoc. reflexivity. }
    split; [exact H|]. intro fuel. simpl. unfold bind at 1. rewrite H. reflexivity.
  - intros c Hp Hc. rewrite Hp in Hs.
    assert (H : main_iter st = (inr Continue, mkSt (students st) rest
                                  (stdout st ++ [MsgMenu; MsgInvalidChoiceRange]))).
    { rewrite Hs.
      destruct (c =? 1)%Z eqn:E1; [apply Z.eqb_eq in E1; lia|].
      destruct (c =? 2)%Z eqn:E2; [apply Z.eqb_eq in E2; lia|].
      destruct (c =? 3)%Z eqn:E3; [apply Z.eqb_eq in E3; lia|].
      destruct (c =? 4)%Z eqn:E4; [apply Z.eqb_eq in E4; lia|].
      destruct (c =? 5)%Z eqn:E5; [apply Z.eqb_eq in E5; lia|].
      unfold bind, print, ret, emit. simpl. rewrite <- app_assoc. reflexivity. }
    split; [exact H|]. intro fuel. simpl. unfold bind at 1. rewrite H. reflexivity.
  - intros Hp fuel. rewrite Hp in Hs. simpl. unfold bind at 1. rewrite Hs.
    unfold bind, print, ret, emit. simpl. rewrite <- app_assoc. reflexivity.
Qed.

Lemma main_iter_invalid_or_exit_witness :
  main_loop 3 (mkSt [mkStudent "Ann" [1%Z]] (map L ["6"; "x"; " 5 "]%string) [])
  = (inr true, mkSt [mkStudent "Ann" [1%Z]] []
                 [MsgMenu; MsgInvalidChoiceRange; MsgMenu; MsgInvalidChoiceNumber;
                  MsgMenu; MsgExiting]).
Proof.
  destruct (main_iter_invalid_or_exit
              (mkSt [mkStudent "Ann" [1%Z]] (map L ["6"; "x"; " 5 "]%string) [])
              "6" (map L ["x"; " 5 "]%string) eq_refl) as (_ & H6 & _).
  destruct (H6 6%Z eq_refl ltac:(lia)) as (_ & Hl).
  etransitivity; [exact (Hl 2%nat)|].
  destruct (main_iter_invalid_or_exit
              (mkSt [mkStudent "Ann" [1%Z]] (map L ["x"; " 5 "]%string) [MsgMenu; MsgInvalidChoiceRange])
              "x" [L " 5 "] eq_refl) as (Hx & _ & _).
  etransitivity; [exact (proj2 (Hx eq_refl) 1%nat)|].
  destruct (main_iter_invalid_or_exit
              (mkSt [mkStudent "Ann" [1%Z]] [L " 5 "]
                    [MsgMenu; MsgInvalidChoiceRange; MsgMenu; MsgInvalidChoiceNumber])
              " 5 " [] eq_refl) as (_ & _ & H5).
  exact (H5 eq_refl 0%nat).
Defined.

(* ------------------------------------------------------------------ *)
(** ** Further properties of the program *)

Lemma find_app {A} (f : A -> bool) (l1 l2 : list A) :
  find f (l1 ++ l2) = match find f l1 with Some y => Some y | None => find f l2 end.
Proof.
  induction l1 as [|x l1 IH]; simpl; [reflexivity|]. destruct (f x); [reflexivity|exact IH].
Qed.

Lemma lower_empty (s : string) : lower s = EmptyString <-> s = EmptyString.
Proof. destruct s; simpl; split; congruence. Qed.

Lemma find_none_forall (r : registry) (n : string) :
  (forall s, In s r -> lower (name s) <> n) ->
  find (fun s => String.eqb (lower (name s)) n) r = None.
Proof.
  intro H. induction r as [|x r IH]; simpl; [reflexivity|].
  destruct (String.eqb (lower (name x)) n) eqn:E.
  - apply String.eqb_eq in E. exfalso. apply (H x); [left; reflexivity|exact E].
  - apply IH. intros s Hs. apply H. right. exact Hs.
Qed.

(** After [add_new_student] accepts the raw name [raw], [find_student]
    on the new registry returns the new record for every input with the
    same normalized form as [raw] (any case, any surrounding spaces). *)
Theorem add_new_student_then_find (st : St) (raw nm : string) (rest : list input_line) :
  stdin st = Line raw :: rest ->
  strip raw <> EmptyString ->
  (forall s, In s (students st) -> lower (name s) <> normalized raw) ->
  normalized nm = normalized raw ->
  find_student (students (snd (add_new_student st))) nm = Some (mkStudent (strip raw) []).
Proof.
  intros Hin Hne Hfresh Hnm.
  destruct (add_new_student_cases st raw rest Hin) as (_ & _ & H3).
  rewrite (H3 Hne Hfresh). simpl.
  rewrite find_student_eq, find_app.
  change (lower (strip nm)) with (normalized nm). rewrite Hnm.
  rewrite find_none_forall by exact Hfresh. simpl.
  unfold normalized. rewrite String.eqb_refl. reflexivity.
Qed.

Lemma add_new_student_then_find_witness :
  find_student (students (snd (add_new_student (mkSt [mkStudent "Bob" []] [L " Ann "] []))))
    "ANN" = Some (mkStudent "Ann" []).
Proof.
  apply (add_new_student_then_find (mkSt [mkStudent "Bob" []] [L " Ann "] []) " Ann " "ANN" []
           eq_refl).
  - discriminate.
  - intros s [<-|[]]. discriminate.
  - reflexivity.
Defined.

(** Two [add_new_student] calls in a row whose raw names have the same
    normalized form: when the first is accepted, the second reports a
    duplicate and leaves the registry as the first left it. *)
Theorem add_new_student_twice (st : St) (raw raw2 : string) (rest : list input_line) :
  stdin st = Line raw :: Line raw2 :: rest ->
  strip raw <> EmptyString ->
  (forall s, In s (students st) -> lower (name s) <> normalized raw) ->
  normalized raw2 = normalized raw ->
  add_new_student (snd (add_new_student st))
  = (inr tt, emit (MsgAlreadyExists (strip raw2))
                  (set_stdin rest (snd (add_new_student st)))).
Proof.
  intros Hin Hne Hfresh Hn2.
  destruct (add_new_student_cases st raw _ Hin) as (_ & _ & H3).
  rewrite (H3 Hne Hfresh). simpl.
  assert (Hin2 : stdin (emit (MsgAdded (strip raw))
                   (set_students (students st ++ [mkStudent (strip raw) []])
                      (set_stdin (Line raw2 :: rest) st))) = Line raw2 :: rest)
    by reflexivity.
  destruct (add_new_student_cases _ raw2 rest Hin2) as (_ & H2 & _).
  apply H2.
  - intro E. apply Hne. apply lower_empty. fold (normalized raw).
    rewrite <- Hn2. unfold normalized. rewrite E. reflexivity.
  - exists (mkStudent (strip raw) []). split.
    + simpl. apply in_or_app. right. left. reflexivity.
    + simpl. rewrite Hn2. reflexivity.
Qed.

Lemma add_new_student_twice_witness :
  add_new_student (snd (add_new_student (mkSt [] [L "Ann"; L " aNN "] [])))
  = (inr tt, mkSt [mkStudent "Ann" []] [] [MsgAdded "Ann"; MsgAlreadyExists "aNN"]).
Proof.
  exact (add_new_student_twice (mkSt [] [L "Ann"; L " aNN "] []) "Ann" " aNN " [] eq_refl
           ltac:(discriminate) (fun s H => match H with end) eq_refl).
Defined.

(** The grade loop cut short: when the tokens [toks] (no sentinel among
    them) are followed by end of input or by Ctrl+C, the accepted grades
    stay appended and the exception propagates. *)
Lemma grade_loop_cut (toks : list string) (tail : list input_line) (e : exn)
      (rest : list input_line) (i : nat) (r : registry) (out : list msg) :
  Forall (fun t => is_done t = false) toks ->
  (tail = [] /\ e = EOFError /\ rest = [] \/ tail = CtrlC :: rest /\ e = KeyboardInterrupt) ->
  grade_loop (map Line toks ++ tail) i (mkSt r (map Line toks ++ tail) out)
  = (inl e, mkSt (update_nth i (app_grades (accepted toks)) r) rest (out ++ rejections toks)).
Proof.
  intros Htoks Htail. revert r out.
  induction Htoks as [|t toks Ht Htoks IH]; intros r out.
  - rewrite update_nth_id by apply app_grades_nil. simpl. rewrite app_nil_r.
    destruct Htail as [(-> & -> & ->)|(-> & ->)]; reflexivity.
  - simpl. unfold is_done in Ht. mstep. rewrite Ht.
    unfold rejections in *. simpl. unfold classify.
    destruct (py_int (strip t)) as [g|]; simpl.
    + destruct ((0 <=? g)%Z && (g <=? 100)%Z); simpl.
      * rewrite IH. rewrite update_nth_comp. f_equal. f_equal.
        apply update_nth_ext. intro y. apply app_grades_app.
      * rewrite IH. rewrite <- app_assoc. reflexivity.
    + rewrite IH. rewrite <- app_assoc. reflexivity.
Qed.

(** When the grade input of a found student ends (end of file) or is
    interrupted (Ctrl+C) before the sentinel, [add_grades_for_student]
    keeps the grades accepted so far (no rollback), prints the rejections
    but no summary line, and raises the exception. *)
Theorem add_grades_for_student_cut (st : St) (raw : string) (toks : list string)
    (tail rest : list input_line) (e : exn) (i : nat) (s : Student) :
  find_student_at (students st) (strip raw) = Some (i, s) ->
  stdin st = Line raw :: map Line toks ++ tail ->
  Forall (fun t => is_done t = false) toks ->
  (tail = [] /\ e = EOFError /\ rest = [] \/ tail = CtrlC :: rest /\ e = KeyboardInterrupt) ->
  add_grades_for_student st
  = (inl e, mkSt (update_nth i (app_grades (accepted toks)) (students st)) rest
                 (stdout st ++ rejections toks)).
Proof.
  destruct st as [r inp out]; simpl. intros Hf -> Htoks Htail.
  unfold add_grades_for_student.
  destruct r as [|s0 r']; [destruct i; discriminate|].
  unfold bind at 1, get_students. unfold bind at 1, input. simpl.
  rewrite Hf. unfold bind at 1, get_stdin. simpl.
  unfold set_stdin, bind at 1. simpl.
  rewrite (grade_loop_cut toks tail e rest) by assumption. reflexivity.
Qed.

Lemma add_grades_for_student_cut_witness :
  add_grades_for_student (mkSt [mkStudent "Ann" []] (map L ["ann"; "40"; "oops"; "60"]%string) [])
  = (inl EOFError, mkSt [mkStudent "Ann" [40%Z; 60%Z]] [] [MsgInvalidNumber]).
Proof.
  refine (add_grades_for_student_cut
            (mkSt [mkStudent "Ann" []] (map L ["ann"; "40"; "oops"; "60"]%string) [])
            "ann" ["40"; "oops"; "60"]%string [] [] EOFError 0%nat (mkStudent "Ann" [])
            eq_refl eq_refl _ (or_introl (conj eq_refl (conj eq_refl eq_refl)))).
  repeat constructor.
Defined.

(** *** Relations between the registry before and after a computation *)

Section Stable.

Variable R : registry -> registry -> Prop.
Hypothesis R_refl : forall r, R r r.
Hypothesis R_trans : forall a b c, R a b -> R b c -> R a c.

(** [m] relates, by [R], the registry it starts from to the one it
    leaves, whether it returns or raises. *)
Definition stable {A} (m : M A) : Prop :=
  forall st, R (students st) (students (snd (m st))).

Lemma stable_ro {A} (m : M A) : read_only m -> stable m.
Proof. intros H st. rewrite H. apply R_refl. Qed.

Lemma stable_bind {A B} (m : M A) (k : A -> M B) :
  stable m -> (forall a, stable (k a)) -> stable (bind m k).
Proof.
  intros Hm Hk st. unfold bind. specialize (Hm st).
  destruct (m st) as [[e|a] st']; simpl in *; [exact Hm|].
  eapply R_trans; [exact Hm|apply Hk].
Qed.

Lemma stable_catch {A} (m : M A) (e : exn) (h : M A) :
  stable m -> stable h -> stable (catch m e h).
Proof.
  intros Hm Hh st. unfold catch. specialize (Hm st).
  destruct (m st) as [[e'|a] st']; simpl in *; [|exact Hm].
  destruct (exn_matches e e'); simpl; [|exact Hm].
  eapply R_trans; [exact Hm|apply Hh].
Qed.

Hypothesis R_add : stable add_new_student.
Hypothesis R_grades : stable add_grades_for_student.

Lemma stable_main_iter : stable main_iter.
Proof.
  unfold main_iter.
  repeat match goal with
         | |- stable (bind _ _) => apply stable_bind; [|intro]
         | |- stable (catch _ _ _) => apply stable_catch
         | |- stable (if ?b then _ else _) => destruct b
         | |- stable (match ?x with _ => _ end) => destruct x
         | |- stable add_new_student => exact R_add
         | |- stable add_grades_for_student => exact R_grades
         | |- stable show_report => apply stable_ro, ro_show_report
         | |- stable find_top_performer => apply stable_ro, ro_find_top_performer
         | |- stable (int_ _) => apply stable_ro; unfold int_; destruct py_int; ro_solve
         | |- stable _ => apply stable_ro; ro_solve
         end.
Qed.

Lemma stable_main_loop (fuel : nat) : stable (main_loop fuel).
Proof.
  induction fuel as [|f IH]; simpl.
  - apply stable_ro, ro_ret.
  - apply stable_bind; [apply stable_main_iter|]. intros []; [exact IH|apply stable_ro, ro_ret].
Qed.

Lemma stable_main (fuel : nat) (inp : list input_line) :
  R [] (students (snd (main fuel inp))).
Proof.
  unfold main. change (@nil Student) with (students (mkSt [] inp [])).
  apply (stable_catch (main_loop fuel) KeyboardInterrupt _ (stable_main_loop fuel)).
  apply stable_bind; [apply stable_ro, ro_print|intro; apply stable_ro, ro_ret].
Qed.

End Stable.

(** Records keep their position and name, and only gain grades at the
    end of their list. *)
Definition extends (r r' : registry) : Prop :=
  forall i s, nth_error r i = Some s -> exists ext, nth_error r' i = Some (app_grades ext s).

Lemma extends_refl (r : registry) : extends r r.
Proof. intros i s H. exists []. rewrite app_grades_nil. exact H. Qed.

Lemma extends_trans (a b c : registry) : extends a b -> extends b c -> extends a c.
Proof.
  intros Hab Hbc i s H. destruct (Hab i s H) as (e1 & H1).
  destruct (Hbc i _ H1) as (e2 & H2). exists (e1 ++ e2).
  rewrite <- app_grades_app. exact H2.
Qed.

Lemma extends_add : stable extends add_new_student.
Proof.
  intro st. destruct (add_new_student_effect st) as [->|(raw & _ & ->)];
    [apply extends_refl|].
  intros i s H. exists []. rewrite app_grades_nil.
  rewrite nth_error_app1; [exact H|]. apply nth_error_Some. congruence.
Qed.

Lemma extends_grades : stable extends add_grades_for_student.
Proof.
  intro st. destruct (add_grades_for_student_effect st) as [->|(i & extra & -> & _)];
    [apply extends_refl|].
  intros j s H. destruct (Nat.eq_dec j i) as [->|Hne].
  - exists extra. rewrite nth_error_update_nth_eq, H. reflexivity.
  - exists []. rewrite app_grades_nil, nth_error_update_nth_ne by exact Hne. exact H.
Qed.

Lemma inv_add : stable (fun r r' => registry_inv r -> registry_inv r') add_new_student.
Proof.
  intros st Hi. destruct (add_new_student_effect st) as [->|(raw & Hf & ->)]; [exact Hi|].
  apply registry_inv_add; assumption.
Qed.

Lemma inv_grades :
  stable (fun r r' => registry_inv r -> registry_inv r') add_grades_for_student.
Proof.
  intros st Hi. destruct (add_grades_for_student_effect st) as [->|(i & extra & -> & Hx)];
    [exact Hi|].
  apply registry_inv_grades; assumption.
Qed.

(** Whatever the input and however the session ends (exit, end of input,
    Ctrl+C, or the iteration bound), the registry [main] leaves holds only
    grades in 0..100, names that are unique after normalization and
    stored stripped. *)
Theorem main_registry_inv (fuel : nat) (inp : list input_line) :
  registry_inv (students (snd (main fuel inp))).
Proof.
  apply (stable_main (fun r r' => registry_inv r -> registry_inv r')).
  - intros r H. exact H.
  - intros a b c Hab Hbc H. apply Hbc, Hab, H.
  - exact inv_add.
  - exact inv_grades.
  - split; [constructor|split; constructor].
Qed.

(** No sequence of menu actions deletes, reorders or renames a student,
    or removes a grade: each record present before keeps its position
    and name, and its grade list only grows at the end. *)
Theorem main_loop_extends (fuel : nat) (st : St) :
  extends (students st) (students (snd (main_loop fuel st))).
Proof.
  apply (stable_main_loop extends extends_refl extends_trans extends_add extends_grades).
Qed.

(** *** Which exceptions can escape *)

(** The exceptions [input()] raises: at end of input, on Ctrl+C, and on
    a line that cannot be decoded. *)
Definition input_exn (e : exn) : Prop :=
  e = EOFError \/ e = KeyboardInterrupt \/ e = UnicodeDecodeError.

(** [m] raises nothing but the exceptions of [input()]. *)
Definition io_only {A} (m : M A) : Prop :=
  forall st e, fst (m st) = inl e -> input_exn e.

Lemma io_ret {A} (a : A) : io_only (ret a).
Proof. intros st e H. discriminate H. Qed.

Lemma io_print (m : msg) : io_only (print m).
Proof. intros st e H. discriminate H. Qed.

Lemma io_input : io_only input.
Proof.
  intros st e H. unfold input in H. unfold input_exn.
  destruct (stdin st) as [|[| |] ]; simpl in H;
    (injection H as <- || discriminate H); auto.
Qed.

Lemma io_get_students : io_only get_students.
Proof. intros st e H. discriminate H. Qed.

Lemma io_get_stdin : io_only get_stdin.
Proof. intros st e H. discriminate H. Qed.

Lemma io_put_students (r : registry) : io_only (put_students r).
Proof. intros st e H. discriminate H. Qed.

Lemma io_bind {A B} (m : M A) (k : A -> M B) :
  io_only m -> (forall a, io_only (k a)) -> io_only (bind m k).
Proof.
  intros Hm Hk st e H. unfold bind in H. specialize (Hm st).
  destruct (m st) as [[e'|a] st']; simpl in *; [|exact (Hk a st' e H)].
  injection H as <-. exact (Hm e' eq_refl).
Qed.

Lemma io_catch {A} (m : M A) (e : exn) (h : M A) :
  io_only m -> io_only h -> io_only (catch m e h).
Proof.
  intros Hm Hh st e0 H. unfold catch in H. specialize (Hm st).
  destruct (m st) as [[e'|a] st']; simpl in *; [|exact (Hm e0 H)].
  destruct (exn_matches e e'); [exact (Hh st' e0 H)|exact (Hm e0 H)].
Qed.

(** [try: int(s) except ValueError: h] *)
Lemma io_catch_int (s : string) (h : M (option Z)) :
  io_only h -> io_only (catch (g <- int_ s ;; ret (Some g)) ValueError h).
Proof.
  intros Hh st e H. unfold catch, int_, bind in H.
  destruct (py_int s); simpl in H; [discriminate H|exact (Hh st e H)].
Qed.

Lemma io_append_grade (i : nat) (g : Z) : io_only (append_grade i g).
Proof. unfold append_grade. apply io_bind; [apply io_get_students|intro; apply io_put_students]. Qed.

Create HintDb io.

#[local] Hint Resolve io_ret io_print io_input io_get_students io_get_stdin
  io_put_students io_append_grade io_catch_int : io.

Ltac io_solve :=
  repeat match goal with
         | |- io_only (bind _ _) => apply io_bind; [|intro]
         | |- io_only (catch (_ <- int_ _ ;; _) ValueError _) => apply io_catch_int
         | |- io_only (catch _ _ _) => apply io_catch
         | |- io_only (if ?b then _ else _) => destruct b
         | |- io_only (match ?x with _ => _ end) => destruct x
         | |- _ => solve [eauto with io]
         end.

Lemma io_grade_loop (pending : list input_line) (i : nat) : io_only (grade_loop pending i).
Proof. induction pending as [|l rest IH]; simpl; io_solve. Qed.

#[local] Hint Resolve io_grade_loop : io.









(** A line that cannot be decoded at the menu prompt ends [main] with
    [UnicodeDecodeError]: [input()] is outside the [try] around [int()]. *)
Example main_undecodable :
  fst (main 3 [L "1"; L "Ann"; Undecodable]) = inl UnicodeDecodeError.
Proof. vm_compute. reflexivity. Qed.


(** *** Report and top performer agree *)

Lemma find_top_performer_run (st : St) :
  Exists graded (students st) -> no_overflow (students st) ->
  exists f0 fs t, filter has_grades (students st) = f0 :: fs
   /\ (forall s, max_loop student_avg fs f0 (favg (grades f0)) s = (inr t, s))
   /\ find_top_performer st = (inr tt, emit (MsgTop (name t) (favg (grades t))) st).
Proof.
  destruct st as [r inp out]; simpl. intros Hex Hov.
  pose proof (filter_graded r) as Hgf.
  pose proof (filter_nonempty _ Hex) as Hnf.
  pose proof (filter_no_overflow _ Hov) as Hof.
  destruct (py_max_key_first _ Hnf Hgf Hof) as (pre_f & t & post_f & Hm & Hsplit & _ & _).
  unfold no_overflow in Hof. rewrite Forall_forall in Hgf, Hof.
  assert (Ht : In t (filter has_grades r))
    by (rewrite Hsplit; apply in_or_app; right; left; reflexivity).
  destruct (filter has_grades r) as [|f0 fs] eqn:F; [contradiction|].
  exists f0, fs, t. split; [reflexivity|]. split.
  - intro s. specialize (Hm s). unfold py_max_key, bind in Hm.
    rewrite student_avg_some in Hm by (apply Hgf || apply Hof; left; reflexivity).
    exact Hm.
  - unfold find_top_performer. destruct r as [|s0 r']; [inversion Hex|].
    unfold bind at 1, get_students. cbn -[filter]. rewrite F.
    unfold bind at 1. rewrite Hm. unfold bind at 1.
    rewrite student_avg_some; [reflexivity|exact (Hgf t Ht)|exact (Hof t Ht)].
Qed.

Lemma find_top_performer_overflow (st : St) :
  Exists (fun s => avg_overflows s = true) (students st) ->
  fst (find_top_performer st) = inl OverflowError.
Proof.
  destruct st as [r inp out]; simpl. intro Hex. unfold find_top_performer.
  destruct r as [|s0 r']; [inversion Hex|].
  unfold bind at 1, get_students. cbn -[filter].
  pose proof (filter_graded (s0 :: r')) as Hgf.
  pose proof (Exists_overflow_filter _ Hex) as Hexf.
  destruct (filter has_grades (s0 :: r')) as [|f fs]; [inversion Hexf|].
  inversion Hgf as [|? ? Hf Hfs]; subst.
  unfold bind at 1, py_max_key, bind at 1.
  destruct (avg_overflows f) eqn:O.
  - rewrite student_avg_overflow by exact O. reflexivity.
  - rewrite student_avg_some by assumption.
    assert (Hfs' : Exists (fun s => avg_overflows s = true) fs)
      by (inversion Hexf; [congruence|assumption]).
    pose proof (max_loop_overflow fs Hfs Hfs' f (favg (grades f)) (mkSt (s0 :: r') inp out))
      as Ho.
    destruct (max_loop student_avg fs f _ _) as [[e|t] s']; simpl in Ho |- *; congruence.
Qed.

(** When some student has grades, either the average the top-performer
    menu entry announces is the "Max Average" line of the report on the
    same registry, or some average overflows and both raise
    [OverflowError]. *)
Theorem top_performer_is_report_max (st : St) :
  Exists graded (students st) ->
  (exists t,
     find_top_performer st = (inr tt, emit (MsgTop (name t) (favg (grades t))) st)
     /\ In (MsgMaxAvg (favg (grades t))) (stdout (snd (show_report st))))
  \/ (fst (find_top_performer st) = inl OverflowError
      /\ fst (show_report st) = inl OverflowError).
Proof.
  intro Hex. destruct (no_overflow_dec (students st)) as [Hno|Hov].
  - left.
    destruct (find_top_performer_run st Hex Hno) as (f0 & fs & t & F & Hrun & Hf).
    assert (Hne : students st <> []) by (intro E; rewrite E in Hex; inversion Hex).
    assert (D : defined_averages (students st)
                = favg (grades f0) :: map (fun x => favg (grades x)) fs)
      by (unfold defined_averages; rewrite F; reflexivity).
    destruct (show_report_stats st _ _ Hne Hno D) as (mx & mn & Hs & Hmx & _).
    assert (Hk : forall x s, In x fs -> student_avg x s = (inr (favg (grades x)), s)).
    { intros x s Hx. pose proof (filter_graded (students st)) as Hg.
      pose proof (filter_no_overflow _ Hno) as Ho. unfold no_overflow in Ho.
      rewrite F, Forall_forall in Hg, Ho.
      apply student_avg_some; [apply Hg|apply Ho]; right; exact Hx. }
    specialize (Hmx st).
    change (py_max (favg (grades f0) :: map (fun x => favg (grades x)) fs) st)
      with (max_loop ret (map (fun x => favg (grades x)) fs) (favg (grades f0))
              (favg (grades f0)) st) in Hmx.
    rewrite (max_loop_map student_avg (fun x => favg (grades x)) fs f0 (favg (grades f0)) Hk st),
      Hrun in Hmx.
    injection Hmx as Emx.
    exists t. split; [exact Hf|]. rewrite Hs, Emx. simpl. apply in_or_app. right. right.
    apply in_or_app. right. right. left. reflexivity.
  - right. split; [apply find_top_performer_overflow|apply show_report_overflow]; exact Hov.
Qed.

Lemma top_performer_is_report_max_witness :
  exists t,
    find_top_performer (mkSt [mkStudent "Ann" [70%Z]; mkStudent "Bob" [90%Z; 80%Z]] [] [])
    = (inr tt, emit (MsgTop (name t) (favg (grades t)))
                    (mkSt [mkStudent "Ann" [70%Z]; mkStudent "Bob" [90%Z; 80%Z]] [] []))
    /\ In (MsgMaxAvg (favg (grades t)))
          (stdout (snd (show_report
                          (mkSt [mkStudent "Ann" [70%Z]; mkStudent "Bob" [90%Z; 80%Z]] [] [])))).
Proof.
  destruct (top_performer_is_report_max
              (mkSt [mkStudent "Ann" [70%Z]; mkStudent "Bob" [90%Z; 80%Z]] [] [])
              ltac:(apply Exists_cons_hd; discriminate))
    as [(t & Hf & Hin)|(Ho & _)].
  - exists t. split; [exact Hf|exact Hin].
  - vm_compute in Ho. discriminate Ho.
Defined.

(** *** Lookups in the registry [main] builds *)

Lemma NoDup_map_inj {A B} (f : A -> B) (l : list A) (x y : A) :
  NoDup (map f l) -> In x l -> In y l -> f x = f y -> x = y.
Proof.
  induction l as [|a l IH]; simpl; [intros _ []|].
  intros Hn Hx Hy Hf. inversion Hn as [|? ? Hnot Hn']; subst.
  destruct Hx as [<-|Hx], Hy as [<-|Hy]; [reflexivity| | |exact (IH Hn' Hx Hy Hf)].
  - exfalso. apply Hnot. rewrite Hf. apply in_map, Hy.
  - exfalso. apply Hnot. rewrite <- Hf. apply in_map, Hx.
Qed.

(** In the registry left by [main], on any input, [find_student] finds a
    record exactly when that record is the one whose normalized name is
    the normalized query: the lookup neither misses a stored student nor
    has a choice to make. *)
Theorem main_find_student_unique (fuel : nat) (inp : list input_line) (nm : string) (s : Student) :
  find_student (students (snd (main fuel inp))) nm = Some s
  <-> In s (students (snd (main fuel inp))) /\ normalized (name s) = normalized nm.
Proof.
  assert (Hi : registry_inv (students (snd (main fuel inp)))).
  { apply (stable_main (fun r r' => registry_inv r -> registry_inv r')).
    - intros r H. exact H.
    - intros a b c Hab Hbc H. apply Hbc, Hab, H.
    - exact inv_add.
    - exact inv_grades.
    - split; [constructor|split; constructor]. }
  destruct Hi as (_ & Hu & Ht).
  pose proof (find_student_first_trimmed _ nm Ht) as Hf.
  set (r := students (snd (main fuel inp))) in *.
  destruct (find_student r nm) as [s'|] eqn:F; simpl in Hf.
  - destruct Hf as (pre & post & Hr & Hs' & _).
    assert (Hin' : In s' r) by (rewrite Hr; apply in_or_app; right; left; reflexivity).
    split.
    + intro E. injection E as <-. split; assumption.
    + intros (Hin & Hs). f_equal.
      apply (NoDup_map_inj (fun s => normalized (name s)) r s' s Hu Hin' Hin). simpl. congruence.
  - split; [discriminate|]. intros (Hin & Hs). rewrite Forall_forall in Hf.
    exfalso. exact (Hf s Hin Hs).
Qed.

(** *** How the session ends *)

Lemma then_continue_not_break (m : M unit) (st st' : St) :
  (m ;; ret Continue) st <> (inr Break, st').
Proof. unfold bind. destruct (m st) as [[e|[]] s]; discriminate. Qed.

Lemma main_iter_break (st st' : St) :
  main_iter st = (inr Break, st') -> exists pre, stdout st' = pre ++ [MsgExiting].
Proof.
  intro H. destruct (stdin st) as [|[raw| |] rest] eqn:Hin;
    [unfold main_iter, bind at 1, print at 1, bind at 1, input in H; simpl in H;
     rewrite Hin in H; discriminate H| |
     unfold main_iter, bind at 1, print at 1, bind at 1, input in H; simpl in H;
     rewrite Hin in H; discriminate H|].
  - rewrite (main_iter_shape st raw rest Hin) in H.
    destruct (py_int (strip raw)) as [c|]; [|discriminate H].
    repeat match type of H with
           | (if ?b then _ else _) _ = _ => destruct b
           | (_ ;; ret Continue) _ = _ => exfalso; exact (then_continue_not_break _ _ _ H)
           end.
    unfold bind, print, ret, emit in H. simpl in H. injection H as <-.
    eexists. reflexivity.
  - unfold main_iter, bind at 1, print at 1, bind at 1, input in H. simpl in H.
    rewrite Hin in H. discriminate H.
Qed.

Lemma main_loop_true (fuel : nat) (st st' : St) :
  main_loop fuel st = (inr true, st') -> exists pre, stdout st' = pre ++ [MsgExiting].
Proof.
  revert st; induction fuel as [|f IH]; intros st H; simpl in H; [discriminate H|].
  unfold bind in H. destruct (main_iter st) as [[e|[]] s] eqn:Hm; [discriminate H| |].
  - exact (IH s H).
  - unfold ret in H. injection H as <-. exact (main_iter_break st s Hm).
Qed.

(** When [main] returns [True] (the user chose 5 or pressed Ctrl+C),
    the last thing it printed is the "Exiting" message. *)
Theorem main_true_ends_exiting (fuel : nat) (inp : list input_line) :
  fst (main fuel inp) = inr true ->
  exists pre, stdout (snd (main fuel inp)) = pre ++ [MsgExiting].
Proof.
  unfold main, catch.
  destruct (main_loop fuel (mkSt [] inp [])) as [[e|b] st'] eqn:Hm; simpl.
  - destruct e; simpl; intro E; try discriminate E. eexists. reflexivity.
  - intro E. injection E as ->. exact (main_loop_true fuel _ st' Hm).
Qed.

(** Ctrl+C at the menu prompt, after one addition. *)
Lemma main_true_ends_exiting_witness :
  fst (main 5 [L "1"; L "Ann"; CtrlC; L "3"]) = inr true
  /\ exists pre, stdout (snd (main 5 [L "1"; L "Ann"; CtrlC; L "3"])) = pre ++ [MsgExiting].
Proof.
  assert (H : fst (main 5 [L "1"; L "Ann"; CtrlC; L "3"]) = inr true) by (vm_compute; reflexivity).
  split; [exact H|]. exact (main_true_ends_exiting 5 _ H).
Defined.

(** *** Every menu iteration consumes input *)

(** [m] never makes stdin longer. *)
Definition nonincr {A} (m : M A) : Prop :=
  forall st, (length (stdin (snd (m st))) <= length (stdin st))%nat.

Lemma ni_ro {A} (m : M A) : (forall st, stdin (snd (m st)) = stdin st) -> nonincr m.
Proof. intros H st. rewrite H. lia. Qed.

Lemma ni_ret {A} (a : A) : nonincr (ret a).
Proof. apply ni_ro. reflexivity. Qed.

Lemma ni_raise {A} (e : exn) : nonincr (@raise A e).
Proof. apply ni_ro. reflexivity. Qed.

Lemma ni_print (m : msg) : nonincr (print m).
Proof. apply ni_ro. reflexivity. Qed.

Lemma ni_get_students : nonincr get_students.
Proof. apply ni_ro. reflexivity. Qed.

Lemma ni_get_stdin : nonincr get_stdin.
Proof. apply ni_ro. reflexivity. Qed.

Lemma ni_put_students (r : registry) : nonincr (put_students r).
Proof. apply ni_ro. reflexivity. Qed.

Lemma ni_input : nonincr input.
Proof. intro st. unfold input. destruct (stdin st) as [|[| |] rest] eqn:E; simpl; rewrite ?E; simpl; lia. Qed.

Lemma ni_int_truediv (a b : Z) : nonincr (int_truediv a b).
Proof.
  unfold int_truediv. destruct (b =? 0)%Z; [apply ni_raise|].
  destruct (int_div_overflows a b); [apply ni_raise|apply ni_ret].
Qed.

Lemma ni_float_div_len (x : float) (n : nat) : nonincr (float_div_len x n).
Proof. unfold float_div_len. destruct (Nat.eqb n 0); [apply ni_raise|apply ni_ret]. Qed.

Lemma ni_int (s : string) : nonincr (int_ s).
Proof. unfold int_. destruct (py_int s); [apply ni_ret|apply ni_raise]. Qed.

Lemma ni_bind {A B} (m : M A) (k : A -> M B) :
  nonincr m -> (forall a, nonincr (k a)) -> nonincr (bind m k).
Proof.
  intros Hm Hk st. unfold bind. specialize (Hm st).
  destruct (m st) as [[e|a] st']; simpl in *; [exact Hm|]. specialize (Hk a st'). lia.
Qed.

Lemma ni_catch {A} (m : M A) (e : exn) (h : M A) :
  nonincr m -> nonincr h -> nonincr (catch m e h).
Proof.
  intros Hm Hh st. unfold catch. specialize (Hm st).
  destruct (m st) as [[e'|a] st']; simpl in *; [|exact Hm].
  destruct (exn_matches e e'); simpl; [specialize (Hh st'); lia|exact Hm].
Qed.

Create HintDb consumes.

#[local] Hint Resolve ni_ret ni_raise ni_print ni_get_students ni_get_stdin ni_put_students
  ni_input ni_int_truediv ni_float_div_len ni_int : consumes.

Ltac ni_solve :=
  repeat match goal with
         | |- nonincr (bind _ _) => apply ni_bind; [|intro]
         | |- nonincr (catch _ _ _) => apply ni_catch
         | |- nonincr (if ?b then _ else _) => destruct b
         | |- nonincr (match ?x with _ => _ end) => destruct x
         | |- _ => solve [eauto with consumes]
         end.

Lemma ni_append_grade (i : nat) (g : Z) : nonincr (append_grade i g).
Proof. unfold append_grade. ni_solve. Qed.

#[local] Hint Resolve ni_append_grade : consumes.

Lemma ni_grade_loop (pending : list input_line) (i : nat) : nonincr (grade_loop pending i).
Proof. induction pending as [|l rest IH]; simpl; ni_solve. Qed.

Lemma ni_student_avg (s : Student) : nonincr (student_avg s).
Proof. apply ni_int_truediv. Qed.

#[local] Hint Resolve ni_grade_loop ni_student_avg : consumes.

Lemma ni_max_loop {A} (key : A -> M float) (l : list A) (b : A) (bv : float) :
  (forall x, nonincr (key x)) -> nonincr (max_loop key l b bv).
Proof. intro Hk. revert b bv; induction l as [|x l IH]; intros b bv; simpl; ni_solve. Qed.

Lemma ni_py_max_key {A} (key : A -> M float) (l : list A) :
  (forall x, nonincr (key x)) -> nonincr (py_max_key key l).
Proof. intro Hk. unfold py_max_key. destruct l; ni_solve. apply ni_max_loop, Hk. Qed.

Lemma ni_min_loop (l : list float) (b : float) : nonincr (min_loop l b).
Proof. revert b; induction l as [|x l IH]; intro b; simpl; ni_solve. Qed.

Lemma ni_report_loop (l : registry) (acc : list float) : nonincr (report_loop l acc).
Proof. revert acc; induction l as [|s l IH]; intro acc; simpl; ni_solve. Qed.

#[local] Hint Resolve ni_min_loop ni_report_loop : consumes.

Lemma ni_add_new_student : nonincr add_new_student.
Proof. unfold add_new_student. ni_solve. Qed.

Lemma ni_add_grades_for_student : nonincr add_grades_for_student.
Proof. unfold add_grades_for_student. ni_solve. Qed.

Lemma ni_show_report : nonincr show_report.
Proof.
  unfold show_report, py_max, py_min. ni_solve; try (apply ni_py_max_key; intro; apply ni_ret).
Qed.

Lemma ni_find_top_performer : nonincr find_top_performer.
Proof. unfold find_top_performer. ni_solve. apply ni_py_max_key, ni_student_avg. Qed.

#[local] Hint Resolve ni_add_new_student ni_add_grades_for_student ni_show_report
  ni_find_top_performer : consumes.





(** *** No student has an empty name *)

Definition names_nonempty (r : registry) : Prop :=
  Forall (fun s => name s <> EmptyString) r.

Lemma nonempty_add :
  stable (fun r r' => names_nonempty r -> names_nonempty r') add_new_student.
Proof.
  intros st Hn. destruct (stdin st) as [|[raw| |] rest] eqn:Hin;
    [unfold add_new_student, bind at 1, input; rewrite Hin; exact Hn| |
     unfold add_new_student, bind at 1, input; rewrite Hin; exact Hn|].
  - destruct (add_new_student_cases st raw rest Hin) as (H1 & H2 & H3).
    destruct (strip raw) as [|c0 s1] eqn:Es.
    + rewrite H1 by reflexivity. exact Hn.
    + assert (Hne : strip raw <> EmptyString) by (rewrite Es; discriminate).
      rewrite <- Es in *.
      destruct (existsb (fun s => String.eqb (lower (name s)) (normalized raw)) (students st))
        eqn:Ex.
      * rewrite H2; [exact Hn|exact Hne|].
        apply existsb_exists in Ex. destruct Ex as (s & Hs & Heq).
        exists s. split; [exact Hs|apply String.eqb_eq; exact Heq].
      * rewrite H3; [|exact Hne|].
        -- simpl. apply Forall_app. split; [exact Hn|]. constructor; [exact Hne|constructor].
        -- intros s Hs Heq. apply String.eqb_eq in Heq.
           assert (Hc : existsb (fun s => String.eqb (lower (name s)) (normalized raw))
                          (students st) = true) by (apply existsb_exists; exists s; auto).
           congruence.
  - unfold add_new_student, bind at 1, input. rewrite Hin. exact Hn.
Qed.

Lemma nonempty_grades :
  stable (fun r r' => names_nonempty r -> names_nonempty r') add_grades_for_student.
Proof.
  intros st Hn. destruct (add_grades_for_student_effect st) as [->|(i & extra & -> & _)];
    [exact Hn|].
  apply Forall_update_nth; [|exact Hn]. intros s Hs. exact Hs.
Qed.

(** In the registry left by [main], a blank query (empty or only
    whitespace) matches no student: [add_new_student] never stores an
    empty name. *)
Theorem main_blank_lookup (fuel : nat) (inp : list input_line) (nm : string) :
  strip nm = EmptyString -> find_student (students (snd (main fuel inp))) nm = None.
Proof.
  intro Hb.
  assert (Hn : names_nonempty (students (snd (main fuel inp)))).
  { apply (stable_main (fun r r' => names_nonempty r -> names_nonempty r')).
    - intros r H. exact H.
    - intros a b c Hab Hbc H. apply Hbc, Hab, H.
    - exact nonempty_add.
    - exact nonempty_grades.
    - constructor. }
  rewrite find_student_eq, Hb. apply find_none_forall.
  intros s Hs E. simpl in E. apply (proj1 (lower_empty (name s))) in E. unfold names_nonempty in Hn.
  rewrite Forall_forall in Hn. exact (Hn s Hs E).
Qed.

Lemma main_blank_lookup_witness :
  strip "   " = EmptyString
  /\ find_student (students (snd (main 4 [L "1"; L " "; L "1"; L "Ann"]))) "   " = None.
Proof.
  assert (H : strip "   " = EmptyString) by reflexivity.
  split; [exact H|]. exact (main_blank_lookup 4 _ "   " H).
Defined.
